(** * CanvasSchemesJS: the Scheme widget of [canvas.schemes.js]

    A shallow embedding of the widget's closure state and of its functions,
    with explicit state passing, followed by the properties of hit testing,
    highlight toggling, hovering and redrawing.

    Numbers are integer pixel values ([Z]): [coordsInArea] documents its
    coordinates as [int], and the label coordinates go through [parseInt].
    Names and part numbers are strings, so the source's [==] and [===]
    agree on them and both are [String.eqb].

    Two calls of the host can throw: [querySelectorAll] on a selector it
    cannot parse and [ctx.arc] on a negative radius. A call that can throw is
    modelled in [Module Call] with its [Completion]; the function of the
    same name outside the module gives the closure variables as the call
    leaves them, whether it returns or throws.

    [toggleItemHighlight] builds its selector by putting the part number
    between double quotes. For a part number without a double quote, a
    backslash, a line break or NUL the selector is the test of the attribute
    value and the model computes the match. For any other part number the
    answer is the list element's ([listQuery]): the properties that depend
    on it hold for every such answer. *)

From Stdlib Require Import ZArith List String Ascii Bool Lia.
Import ListNotations.

Local Open Scope string_scope.
Local Open Scope Z_scope.

(** ** The [utility] object *)

Module utility.

(** [className.split(' ')]: the pieces between single spaces; the empty
    string splits into one empty piece. *)
Fixpoint split (s : string) : list string :=
  match s with
  | EmptyString => [EmptyString]
  | String c rest =>
      if Ascii.eqb c " "%char then EmptyString :: split rest
      else match split rest with
           | [] => [String c EmptyString]
           | piece :: pieces => String c piece :: pieces
           end
  end.

(** [classes.join(' ')]. *)
Definition join (classes : list string) : string := String.concat " " classes.

(** [classes.indexOf(cls) == -1]. *)
Definition absent (cls : string) (classes : list string) : bool :=
  negb (existsb (String.eqb cls) classes).

(** The [splice] loop of [removeClass]: every piece equal to [cls] is cut
    out, the others keep their order. *)
Fixpoint splice_all (cls : string) (classes : list string) : list string :=
  match classes with
  | [] => []
  | c :: rest =>
      if String.eqb c cls then splice_all cls rest
      else c :: splice_all cls rest
  end.

(** The functions take and return the element's [className]. *)
Definition addClass (className cls : string) : string :=
  let classes := split className in
  join (if absent cls classes then classes ++ [cls] else classes).

Definition removeClass (className cls : string) : string :=
  join (splice_all cls (split className)).

Definition toggleClass (className cls : string) : string :=
  if absent cls (split className) then addClass className cls
  else removeClass className cls.

Definition inRange (val min max : Z) : bool :=
  (val >=? min) && (val <=? max).

(** Whether an element carries the class [cls]. *)
Definition hasClass (className cls : string) : bool :=
  negb (absent cls (split className)).

End utility.

(** ** Data *)

(** An area around a label. A redraw builds new area objects with the
    fields of the old ones, and the code looks at the fields only, so areas
    are compared by their fields. *)
Module Area.
Record t : Type := mk {
  name : string;
  left : Z;
  top : Z;
  right : Z;
  bottom : Z;
  x : Z;
  y : Z;
  radius : Z
}.

(** [new Area(name, x, y, radius)]. *)
Definition new (name : string) (x y radius : Z) : t :=
  {| name := name;
     left := x - radius;
     top := y - radius;
     right := x + radius;
     bottom := y + radius;
     x := x;
     y := y;
     radius := radius |}.

End Area.

(** One entry of the labels array; [label_x1] and [label_y1] are given by
    the integers that [parseInt] makes of the JSON fields. *)
Module Label.
Record t : Type := mk {
  sLabel : string;
  label_x1 : Z;
  label_y1 : Z
}.
End Label.

(** [parseInt] of such an integer is that integer. *)
Definition parseInt (v : Z) : Z := v.

Record Config : Type := mkConfig {
  padding : Z;
  bgColor : string;
  fontFamily : string;
  fontSize : string;
  fontColor : string;
  areaRadius : Z;
  areaColor : string;
  scale : Z
}.

(** The defaults of the constructor. *)
Definition defaultConfig : Config :=
  {| padding := 30;
     bgColor := "#fff";
     fontFamily := "Arial";
     fontSize := "12px";
     fontColor := "#555555";
     areaRadius := 10;
     areaColor := "#a52a2a";
     scale := 1 |}.

(** A key of the params object with its value; [setConfig] copies each
    one over the default. *)
Inductive Param : Type :=
| p_padding (v : Z)
| p_bgColor (v : string)
| p_fontFamily (v : string)
| p_fontSize (v : string)
| p_fontColor (v : string)
| p_areaRadius (v : Z)
| p_areaColor (v : string)
| p_scale (v : Z).

Module Canvas.
Record t : Type := mk {
  width : Z;
  height : Z;
  className : string
}.
End Canvas.

Module Image.
Record t : Type := mk {
  src : string;
  width : Z;
  height : Z
}.
End Image.

(** What the 2D context is asked to draw, each call with the styles that
    are in force when it is made. *)
Inductive DrawOp : Type :=
| ClearRect (x y w h : Z)
| FillRect (fillStyle : string) (x y w h : Z)
| DrawImage (src : string) (x y : Z)
| FillText (font fillStyle text : string) (x y : Z)
| StrokeArc (strokeStyle : string) (lineWidth x y radius : Z).

(** The parts list: an element that carries [data-part-number], and the
    parent element whose class is switched, with such children. *)
Record Span : Type := mkSpan {
  data_part_number : string
}.

Record ListItem : Type := mkListItem {
  className : string;
  children : list Span
}.

(** What [querySelectorAll] of the list element answers: a [SyntaxError],
    or the elements it matches, each given by the position of its parent
    among the list items, in document order. *)
Inductive SelectorResult : Type :=
| SyntaxError
| Matched (parents : list nat).

(** The closure variables of one [Scheme]. [ctx] is the log of the drawing
    calls made so far, oldest first. The list element is held in two
    parts: [listEl], its items, and [listQuery], the answer of its
    [querySelectorAll] to the selector of a part number that is not made of
    selector characters (see [selectorSafe]), for the items as they are. *)
Record Scheme : Type := mkScheme {
  canvas : Canvas.t;
  listEl : list ListItem;
  ctx : list DrawOp;
  labels : list Label.t;
  schemeImg : Image.t;
  areas : list Area.t;
  selectedAreas : list Area.t;
  hoveredArea : option Area.t;
  config : Config;
  listQuery : string -> list ListItem -> SelectorResult
}.

Definition set_canvas (c : Canvas.t) (s : Scheme) : Scheme :=
  mkScheme c (listEl s) (ctx s) (labels s) (schemeImg s) (areas s)
           (selectedAreas s) (hoveredArea s) (config s) (listQuery s).

Definition set_listEl (l : list ListItem) (s : Scheme) : Scheme :=
  mkScheme (canvas s) l (ctx s) (labels s) (schemeImg s) (areas s)
           (selectedAreas s) (hoveredArea s) (config s) (listQuery s).

Definition set_ctx (ops : list DrawOp) (s : Scheme) : Scheme :=
  mkScheme (canvas s) (listEl s) ops (labels s) (schemeImg s) (areas s)
           (selectedAreas s) (hoveredArea s) (config s) (listQuery s).

Definition set_areas (l : list Area.t) (s : Scheme) : Scheme :=
  mkScheme (canvas s) (listEl s) (ctx s) (labels s) (schemeImg s) l
           (selectedAreas s) (hoveredArea s) (config s) (listQuery s).

Definition set_selectedAreas (l : list Area.t) (s : Scheme) : Scheme :=
  mkScheme (canvas s) (listEl s) (ctx s) (labels s) (schemeImg s) (areas s)
           l (hoveredArea s) (config s) (listQuery s).

Definition set_hoveredArea (h : option Area.t) (s : Scheme) : Scheme :=
  mkScheme (canvas s) (listEl s) (ctx s) (labels s) (schemeImg s) (areas s)
           (selectedAreas s) h (config s) (listQuery s).

Definition set_config (c : Config) (s : Scheme) : Scheme :=
  mkScheme (canvas s) (listEl s) (ctx s) (labels s) (schemeImg s) (areas s)
           (selectedAreas s) (hoveredArea s) c (listQuery s).

Definition set_listQuery (q : string -> list ListItem -> SelectorResult)
    (s : Scheme) : Scheme :=
  mkScheme (canvas s) (listEl s) (ctx s) (labels s) (schemeImg s) (areas s)
           (selectedAreas s) (hoveredArea s) (config s) q.

(** One drawing call. *)
Definition draw (op : DrawOp) (s : Scheme) : Scheme :=
  set_ctx (ctx s ++ [op]) s.

(** ** The functions of the widget *)

(** One assignment [config[param] = params[param]]. *)
Definition assignParam (c : Config) (p : Param) : Config :=
  match p with
  | p_padding v =>
      mkConfig v (bgColor c) (fontFamily c) (fontSize c) (fontColor c)
               (areaRadius c) (areaColor c) (scale c)
  | p_bgColor v =>
      mkConfig (padding c) v (fontFamily c) (fontSize c) (fontColor c)
               (areaRadius c) (areaColor c) (scale c)
  | p_fontFamily v =>
      mkConfig (padding c) (bgColor c) v (fontSize c) (fontColor c)
               (areaRadius c) (areaColor c) (scale c)
  | p_fontSize v =>
      mkConfig (padding c) (bgColor c) (fontFamily c) v (fontColor c)
               (areaRadius c) (areaColor c) (scale c)
  | p_fontColor v =>
      mkConfig (padding c) (bgColor c) (fontFamily c) (fontSize c) v
               (areaRadius c) (areaColor c) (scale c)
  | p_areaRadius v =>
      mkConfig (padding c) (bgColor c) (fontFamily c) (fontSize c)
               (fontColor c) v (areaColor c) (scale c)
  | p_areaColor v =>
      mkConfig (padding c) (bgColor c) (fontFamily c) (fontSize c)
               (fontColor c) (areaRadius c) v (scale c)
  | p_scale v =>
      mkConfig (padding c) (bgColor c) (fontFamily c) (fontSize c)
               (fontColor c) (areaRadius c) (areaColor c) v
  end.

Definition setConfig (params : list Param) (s : Scheme) : Scheme :=
  set_config (fold_left assignParam params (config s)) s.

(** What [canvas.width] and [canvas.height] hold after an assignment. They
    are [unsigned long] attributes that reflect a content attribute: the
    number is taken modulo 2^32, and a result above 2147483647 gives the
    default (300 for the width, 150 for the height). *)
Definition reflectSize (default v : Z) : Z :=
  let u := v mod 4294967296 in
  if u <=? 2147483647 then u else default.

Definition setCanvasSize (w h : Z) (s : Scheme) : Scheme :=
  set_canvas (Canvas.mk (reflectSize 300 w) (reflectSize 150 h)
                        (Canvas.className (canvas s))) s.

Definition saveArea (name : string) (x y radius : Z) (s : Scheme) : Scheme :=
  let area := Area.new name x y radius in
  set_areas (areas s ++ [area]) s.

Definition coordsInArea (x y : Z) (area : Area.t) : bool :=
  utility.inRange x (Area.left area) (Area.right area)
  && utility.inRange y (Area.top area) (Area.bottom area).

(** [findAllAreas]: the areas whose name is [name], in array order. *)
Definition findAllAreas (name : string) (s : Scheme) : list Area.t :=
  filter (fun a => String.eqb (Area.name a) name) (areas s).

(** The loop of [removeSelectedAreas] over the selected areas: an entry
    with the name is spliced out and appended to [removed], the scan goes on
    with the entries behind it. The result is (removed, what is left). *)
Fixpoint removeSelectedAreas_loop (name : string) (selected : list Area.t)
  : list Area.t * list Area.t :=
  match selected with
  | [] => ([], [])
  | a :: rest =>
      let (removed, left) := removeSelectedAreas_loop name rest in
      if String.eqb (Area.name a) name then (a :: removed, left)
      else (removed, a :: left)
  end.

(** [removeSelectedAreas]: returns the removed areas and the state with
    [selectedAreas] spliced. *)
Definition removeSelectedAreas (name : string) (s : Scheme)
  : list Area.t * Scheme :=
  let (removed, left) := removeSelectedAreas_loop name (selectedAreas s) in
  (removed, set_selectedAreas left s).

(** [func(item, 'selected')] once for each child of [li] that the selector
    [[data-part-number="partNumber"]] matches. *)
Definition highlightParent (partNumber : string)
    (func : string -> string -> string) (li : ListItem) : ListItem :=
  fold_left
    (fun item span =>
       if String.eqb (data_part_number span) partNumber
       then mkListItem (func (className item) "selected") (children item)
       else item)
    (children li) li.

(** How a call ends: it returns, or an exception leaves it, in both cases
    with the closure variables as they are at that point. *)
Inductive Completion : Type :=
| Returns (s : Scheme)
| Throws (s : Scheme).

Definition stateOf (c : Completion) : Scheme :=
  match c with
  | Returns s => s
  | Throws s => s
  end.

Definition threw (c : Completion) : bool :=
  match c with
  | Returns _ => false
  | Throws _ => true
  end.

(** The next statement runs when the call before it has returned. *)
Definition andThen (c : Completion) (next : Scheme -> Completion)
  : Completion :=
  match c with
  | Returns s => next s
  | Throws s => Throws s
  end.

(** The characters that keep [partNumber] from being the text between the
    quotes of the selector: the double quote, the backslash, the line breaks
    (LF, FF, CR) and NUL. *)
Definition selectorChar (c : ascii) : bool :=
  negb (existsb (Nat.eqb (nat_of_ascii c)) [0; 10; 12; 13; 34; 92]%nat).

Fixpoint selectorSafe (partNumber : string) : bool :=
  match partNumber with
  | EmptyString => true
  | String c rest => selectorChar c && selectorSafe rest
  end.

Definition nonempty {A : Type} (l : list A) : bool :=
  match l with
  | [] => false
  | _ :: _ => true
  end.

Definition drawLabel (text : string) (x y : Z) (s : Scheme) : Scheme :=
  let font := fontSize (config s) ++ " " ++ fontFamily (config s) in
  let s1 := draw (FillText font (fontColor (config s)) text x y) s in
  saveArea text x y (areaRadius (config s1)) s1.

Definition drawLabels (s : Scheme) : Scheme :=
  fold_left
    (fun st label =>
       let text := Label.sLabel label in
       let x := parseInt (Label.label_x1 label) + padding (config st) in
       let y := parseInt (Label.label_y1 label) + padding (config st) in
       drawLabel text x y st)
    (labels s) s.

(** A mouse event with its [offsetX] and [offsetY]. *)
Record MouseEvent : Type := mkMouseEvent {
  offsetX : Z;
  offsetY : Z
}.

(** [func(item, 'selected')] for the list item at position [i]; a parent
    that is not one of the list items is outside of the model. *)
Fixpoint classAt (func : string -> string -> string) (i : nat)
    (items : list ListItem) : list ListItem :=
  match items, i with
  | [], _ => []
  | li :: rest, O =>
      mkListItem (func (className li) "selected") (children li) :: rest
  | li :: rest, S j => li :: classAt func j rest
  end.

(** The list items after the loop of [toggleItemHighlight], when
    [querySelectorAll] has not thrown. *)
Definition itemsAfter (partNumber : string)
    (func : string -> string -> string)
    (query : string -> list ListItem -> SelectorResult)
    (items : list ListItem) : option (list ListItem) :=
  if selectorSafe partNumber
  then Some (map (highlightParent partNumber func) items)
  else match query partNumber items with
       | SyntaxError => None
       | Matched parents =>
           Some (fold_left (fun l i => classAt func i l) parents items)
       end.

(** Whether [querySelectorAll] accepts the selector of the part number. *)
Definition selectorReturns (partNumber : string) (s : Scheme) : bool :=
  selectorSafe partNumber
  || match listQuery s partNumber (listEl s) with
     | SyntaxError => false
     | Matched _ => true
     end.

Module Call.

(** [toggleItemHighlight]: the selector is
    ['[data-part-number="' + partNumber + '"]']. For a part number of
    selector characters it matches exactly the elements whose attribute
    equals [partNumber], and [func] is applied to the parent of each. For
    any other part number the selector is not the test of that attribute
    value (a double quote ends the quoted text early, a backslash starts an
    escape), and what [querySelectorAll] does with it is [listQuery]: a
    [SyntaxError] leaves the function before any class is touched. *)
Definition toggleItemHighlight (partNumber : string)
    (func : string -> string -> string) (s : Scheme) : Completion :=
  match itemsAfter partNumber func (listQuery s) (listEl s) with
  | Some items => Returns (set_listEl items s)
  | None => Throws s
  end.

(** [drawArea]: [ctx.arc] throws an [IndexSizeError] on a negative radius,
    before anything is stroked. *)
Definition drawArea (x y radius : Z) (s : Scheme) : Completion :=
  if radius <? 0 then Throws s
  else Returns (draw (StrokeArc (areaColor (config s)) 1 x y radius) s).

(** The loop of [drawSelectedAreas]. *)
Fixpoint drawSelectedAreas_loop (selected : list Area.t) (s : Scheme)
  : Completion :=
  match selected with
  | [] => Returns s
  | area :: rest =>
      andThen (drawArea (Area.x area) (Area.y area) (Area.radius area) s)
              (drawSelectedAreas_loop rest)
  end.

Definition drawSelectedAreas (s : Scheme) : Completion :=
  drawSelectedAreas_loop (selectedAreas s) s.

Definition drawScheme (s : Scheme) : Completion :=
  let w := Image.width (schemeImg s) + padding (config s) * 2 in
  let h := Image.height (schemeImg s) + padding (config s) * 2 in
  let s1 := setCanvasSize w h s in
  let s2 := draw (FillRect (bgColor (config s1)) 0 0
                           (Canvas.width (canvas s1))
                           (Canvas.height (canvas s1))) s1 in
  let s3 := draw (DrawImage (Image.src (schemeImg s2))
                            (padding (config s2)) (padding (config s2))) s2 in
  drawSelectedAreas (drawLabels s3).

Definition redrawScheme (s : Scheme) : Completion :=
  let s1 := draw (ClearRect 0 0 (Canvas.width (canvas s))
                            (Canvas.height (canvas s))) s in
  drawScheme (set_areas [] s1).

Definition toggleHighlight (partNumber : string) (s : Scheme) : Completion :=
  let foundAreas := findAllAreas partNumber s in
  if nonempty foundAreas then
    let (removed, s1) := removeSelectedAreas partNumber s in
    if nonempty removed then
      andThen (toggleItemHighlight partNumber utility.removeClass s1)
              redrawScheme
    else
      let s2 := set_selectedAreas (selectedAreas s1 ++ foundAreas) s1 in
      andThen (toggleItemHighlight partNumber utility.addClass s2)
              redrawScheme
  else Returns s.

(** [itemClicked]: [this] is the clicked element of the list. *)
Definition itemClicked (this : Span) (s : Scheme) : Completion :=
  let partNumber := data_part_number this in
  toggleHighlight partNumber s.

(** The loop of [areaClicked] from index [i]. [areas] is read again at
    every turn: a toggle inside the body replaces the array by the redrawn
    one. A toggle that throws ends the loop. [fuel] bounds the number of
    turns. *)
Fixpoint areaClicked_loop (fuel : nat) (e : MouseEvent) (i : nat)
    (s : Scheme) : Completion :=
  match fuel with
  | O => Returns s
  | S fuel' =>
      match nth_error (areas s) i with
      | None => Returns s
      | Some area =>
          andThen
            (if coordsInArea (offsetX e) (offsetY e) area
             then toggleHighlight (Area.name area) s
             else Returns s)
            (areaClicked_loop fuel' e (S i))
      end
  end.

Definition areaClicked (e : MouseEvent) (s : Scheme) : Completion :=
  areaClicked_loop (Nat.max (List.length (areas s)) (List.length (labels s)))
                   e 0%nat s.

End Call.

(** The closure variables after a call, whether it returned or threw. *)
Definition drawScheme (s : Scheme) : Scheme :=
  stateOf (Call.drawScheme s).

Definition redrawScheme (s : Scheme) : Scheme :=
  stateOf (Call.redrawScheme s).

Definition toggleHighlight (partNumber : string) (s : Scheme) : Scheme :=
  stateOf (Call.toggleHighlight partNumber s).

(** [itemClicked]: [this] is the clicked element of the list. *)
Definition itemClicked (this : Span) (s : Scheme) : Scheme :=
  let partNumber := data_part_number this in
  toggleHighlight partNumber s.

Definition areaClicked_loop (fuel : nat) (e : MouseEvent) (i : nat)
    (s : Scheme) : Scheme :=
  stateOf (Call.areaClicked_loop fuel e i s).

(** [areaClicked]. The index stays below the longer of the array at entry
    and the redrawn array, which has one area per label, so this fuel is
    never used up ([areaClicked_loop_fuel]). *)
Definition areaClicked (e : MouseEvent) (s : Scheme) : Scheme :=
  areaClicked_loop (Nat.max (List.length (areas s)) (List.length (labels s)))
                   e 0%nat s.

(** The scan of [areaHovered] for the first area under the pointer. *)
Fixpoint areaHovered_scan (e : MouseEvent) (l : list Area.t)
  : option Area.t :=
  match l with
  | [] => None
  | area :: rest =>
      if coordsInArea (offsetX e) (offsetY e) area then Some area
      else areaHovered_scan e rest
  end.

Definition canvas_addClass (cls : string) (s : Scheme) : Scheme :=
  set_canvas (Canvas.mk (Canvas.width (canvas s)) (Canvas.height (canvas s))
                        (utility.addClass (Canvas.className (canvas s)) cls)) s.

Definition canvas_removeClass (cls : string) (s : Scheme) : Scheme :=
  set_canvas (Canvas.mk (Canvas.width (canvas s)) (Canvas.height (canvas s))
                        (utility.removeClass (Canvas.className (canvas s)) cls)) s.

(** [areaHovered]: [hoveredArea] is the empty object ([None]) or an area. *)
Definition areaHovered (e : MouseEvent) (s : Scheme) : Scheme :=
  match hoveredArea s with
  | None =>
      match areaHovered_scan e (areas s) with
      | Some area => canvas_addClass "pointer" (set_hoveredArea (Some area) s)
      | None => s
      end
  | Some hovered =>
      if negb (coordsInArea (offsetX e) (offsetY e) hovered)
      then canvas_removeClass "pointer" (set_hoveredArea None s)
      else s
  end.

(** A list element whose [querySelectorAll] throws a [SyntaxError] for
    every such selector. *)
Definition refuses (partNumber : string) (items : list ListItem)
  : SelectorResult :=
  SyntaxError.

(** The constructor: the closure variables at their initial values, the
    user parameters applied when there are any. The list element is one
    that [refuses]; [reach_list] has the others. *)
Definition Scheme_new (canvasEl : Canvas.t) (listItems : list ListItem)
    (img : Image.t) (labelsJSON : list Label.t)
    (params : option (list Param)) : Scheme :=
  let s := {| canvas := canvasEl;
              listEl := listItems;
              ctx := [];
              labels := labelsJSON;
              schemeImg := img;
              areas := [];
              selectedAreas := [];
              hoveredArea := None;
              config := defaultConfig;
              listQuery := refuses |} in
  match params with
  | Some ps => setConfig ps s
  | None => s
  end.

(** ** Events *)

(** The listeners of [setEventsListeners]. *)
Inductive Event : Type :=
| ImageLoad
| CanvasClick (e : MouseEvent)
| CanvasMouseMove (e : MouseEvent)
| ItemClick (this : Span).

Definition dispatch (ev : Event) (s : Scheme) : Scheme :=
  match ev with
  | ImageLoad => drawScheme s
  | CanvasClick e => areaClicked e s
  | CanvasMouseMove e => areaHovered e s
  | ItemClick this => itemClicked this s
  end.

Definition run (evs : list Event) (s : Scheme) : Scheme :=
  fold_left (fun st ev => dispatch ev st) evs s.

Definition userEvent (ev : Event) : bool :=
  match ev with
  | ImageLoad => false
  | _ => true
  end.

(** The states a widget goes through. The image loads once: the index
    tells whether its [load] event has fired. [reach_list] is the
    constructor on a list element with any [querySelectorAll]. *)
Inductive reachable : bool -> Scheme -> Prop :=
| reach_new : forall canvasEl listItems img labelsJSON params,
    reachable false (Scheme_new canvasEl listItems img labelsJSON params)
| reach_list : forall canvasEl listItems img labelsJSON params query,
    reachable false
      (set_listQuery query
         (Scheme_new canvasEl listItems img labelsJSON params))
| reach_load : forall s,
    reachable false s -> reachable true (dispatch ImageLoad s)
| reach_user : forall loaded s ev,
    reachable loaded s -> userEvent ev = true ->
    reachable loaded (dispatch ev s).

(** The areas a render pass registers: one per label, in label order. *)
Definition labelAreas (s : Scheme) : list Area.t :=
  map (fun label =>
         Area.new (Label.sLabel label)
                  (parseInt (Label.label_x1 label) + padding (config s))
                  (parseInt (Label.label_y1 label) + padding (config s))
                  (areaRadius (config s)))
      (labels s).

(** The drawing calls of a render pass. *)
Definition labelText (c : Config) (label : Label.t) : DrawOp :=
  FillText (fontSize c ++ " " ++ fontFamily c) (fontColor c)
           (Label.sLabel label)
           (parseInt (Label.label_x1 label) + padding c)
           (parseInt (Label.label_y1 label) + padding c).

Definition areaStroke (c : Config) (area : Area.t) : DrawOp :=
  StrokeArc (areaColor c) 1 (Area.x area) (Area.y area) (Area.radius area).

(** The selected areas that get their circle: those in front of the first
    one with a negative radius. *)
Fixpoint strokedAreas (selected : list Area.t) : list Area.t :=
  match selected with
  | [] => []
  | area :: rest =>
      if Area.radius area <? 0 then [] else area :: strokedAreas rest
  end.

Definition allStroked (selected : list Area.t) : bool :=
  forallb (fun area => negb (Area.radius area <? 0)) selected.

Definition renderPass (s : Scheme) : list DrawOp :=
  let w := reflectSize 300 (Image.width (schemeImg s) + padding (config s) * 2) in
  let h := reflectSize 150 (Image.height (schemeImg s) + padding (config s) * 2) in
  [FillRect (bgColor (config s)) 0 0 w h;
   DrawImage (Image.src (schemeImg s)) (padding (config s)) (padding (config s))]
  ++ map (labelText (config s)) (labels s)
  ++ map (areaStroke (config s)) (strokedAreas (selectedAreas s)).

(** The hover states along a sequence of mousemove events, the state
    before the first event included. *)
Fixpoint hoverTrace (es : list MouseEvent) (s : Scheme)
  : list (option Area.t) :=
  match es with
  | [] => [hoveredArea s]
  | e :: rest => hoveredArea s :: hoverTrace rest (areaHovered e s)
  end.

(** The steps of the hover state: it stays, an area is entered from the
    empty state, or the hovered area is left for the empty state. *)
Inductive hoverStep : option Area.t -> option Area.t -> Prop :=
| hover_stay : forall h, hoverStep h h
| hover_enter : forall area, hoverStep None (Some area)
| hover_leave : forall area, hoverStep (Some area) None.

(** Every two neighbours of a list are related. *)
Fixpoint chain {A : Type} (R : A -> A -> Prop) (l : list A) : Prop :=
  match l with
  | a :: ((b :: _) as rest) => R a b /\ chain R rest
  | _ => True
  end.

(** The areas under a click, in array order. *)
Definition clickedAreas (e : MouseEvent) (s : Scheme) : list Area.t :=
  filter (coordsInArea (offsetX e) (offsetY e)) (areas s).

(** [toggleHighlight] called with each name of a list in turn. *)
Definition toggleAll (names : list string) (s : Scheme) : Scheme :=
  fold_left (fun st name => toggleHighlight name st) names s.

(** The test of the name in [findAllAreas] and [removeSelectedAreas]. *)
Definition named (name : string) (a : Area.t) : bool :=
  String.eqb (Area.name a) name.

(** A name is fully selected when every area of the array that bears it is
    among the selected areas, and not selected when no selected area bears
    it. *)
Definition fullySelected (name : string) (s : Scheme) : Prop :=
  forall a, In a (areas s) -> Area.name a = name -> In a (selectedAreas s).

Definition notSelected (name : string) (s : Scheme) : Prop :=
  forall a, In a (selectedAreas s) -> Area.name a <> name.

(** What holds of the area array and of the selection in the states of a
    widget: before the image is loaded there are no areas, afterwards the
    array is the one of the labels; the selected areas are areas of labels,
    and every name has all of the labels' areas selected or none. *)
Definition consistent (loaded : bool) (s : Scheme) : Prop :=
  areas s = (if loaded then labelAreas s else [])
  /\ (forall a, In a (selectedAreas s) -> In a (labelAreas s))
  /\ forall name,
       (forall a, In a (labelAreas s) -> Area.name a = name ->
                  In a (selectedAreas s))
       \/ notSelected name s.

(** A class name without a space in it. *)
Fixpoint noSpace (s : string) : bool :=
  match s with
  | EmptyString => true
  | String c rest => negb (Ascii.eqb c " "%char) && noSpace rest
  end.

(** Whether a list item bears the class [selected]. *)
Definition hasSelected (li : ListItem) : bool :=
  utility.hasClass (className li) "selected".

Definition selectedFlags (s : Scheme) : list bool :=
  map hasSelected (listEl s).

(** Whether a list item has a child with the part number. *)
Definition holdsPartNumber (partNumber : string) (li : ListItem) : bool :=
  existsb (fun span => String.eqb (data_part_number span) partNumber)
          (children li).

(** Whether some selected area bears the name. *)
Definition isSelected (name : string) (s : Scheme) : bool :=
  nonempty (filter (named name) (selectedAreas s)).

(** The list items of a part number bear [selected] exactly when the name
    is selected. *)
Definition listInSync (partNumber : string) (s : Scheme) : Prop :=
  forall li, In li (listEl s) -> holdsPartNumber partNumber li = true ->
             hasSelected li = isSelected partNumber s.

(** Two toggles of a name bring back the membership of the selected areas
    and the [selected] class of every list item. *)
Definition toggleTwiceRestores (partNumber : string) (s : Scheme) : Prop :=
  let s' := toggleHighlight partNumber (toggleHighlight partNumber s) in
  (forall a, In a (selectedAreas s') <-> In a (selectedAreas s))
  /\ selectedFlags s' = selectedFlags s.

(** A configuration with another [scale], and a widget with it. *)
Definition with_scale (v : Z) (c : Config) : Config :=
  mkConfig (padding c) (bgColor c) (fontFamily c) (fontSize c) (fontColor c)
           (areaRadius c) (areaColor c) v.

Definition scheme_with_scale (v : Z) (s : Scheme) : Scheme :=
  set_config (with_scale v (config s)) s.

(** What a widget shows and answers with: the canvas with its size and
    class, the list, the drawing log, the areas that are hit-tested, the
    selection and the hover state. *)
Definition observe (s : Scheme)
  : Canvas.t * list ListItem * list DrawOp * list Area.t * list Area.t
    * option Area.t :=
  (canvas s, listEl s, ctx s, areas s, selectedAreas s, hoveredArea s).

(** The selected areas of every name are none, or the labels' areas of that
    name, each once and in label order. *)
Definition selectionExact (s : Scheme) : Prop :=
  forall name,
    filter (named name) (selectedAreas s) = []
    \/ filter (named name) (selectedAreas s)
       = filter (named name) (labelAreas s).

(** The key of the params object that a parameter assigns. *)
Definition paramKey (p : Param) : string :=
  match p with
  | p_padding _ => "padding"
  | p_bgColor _ => "bgColor"
  | p_fontFamily _ => "fontFamily"
  | p_fontSize _ => "fontSize"
  | p_fontColor _ => "fontColor"
  | p_areaRadius _ => "areaRadius"
  | p_areaColor _ => "areaColor"
  | p_scale _ => "scale"
  end.

(** The canvas has the size that the assignment of the image's size with
    the padding on every side leaves in its attributes. *)
Definition canvasFitsImage (s : Scheme) : Prop :=
  Canvas.width (canvas s)
  = reflectSize 300 (Image.width (schemeImg s) + padding (config s) * 2)
  /\ Canvas.height (canvas s)
     = reflectSize 150 (Image.height (schemeImg s) + padding (config s) * 2).

(** A hovered area is one of the labels' areas and the canvas bears the
    class [pointer] while an area is hovered. *)
Definition hoverShown (s : Scheme) : Prop :=
  forall a, hoveredArea s = Some a ->
            In a (labelAreas s)
            /\ utility.hasClass (Canvas.className (canvas s)) "pointer" = true.

(** What [toggleHighlight] does after it has changed the selection: the
    classes of the list items, then the redraw. *)
Definition classesAndRedraw (partNumber : string)
    (func : string -> string -> string) (s : Scheme) : Completion :=
  andThen (Call.toggleItemHighlight partNumber func s) Call.redrawScheme.

(** The log after a redraw ends with a circle for every selected area. *)
Definition selectionStroked (s : Scheme) : Prop :=
  exists before : list DrawOp,
    ctx (redrawScheme s)
    = (ctx s
       ++ ClearRect 0 0 (Canvas.width (canvas s)) (Canvas.height (canvas s))
       :: before
       ++ map (fun area =>
                 StrokeArc (areaColor (config s)) 1
                           (Area.x area) (Area.y area) (Area.radius area))
              (selectedAreas s))%list.

(** The double quote, which a string of this file cannot hold as it is. *)
Definition doubleQuote : ascii := ascii_of_nat 34.

(** [toggleHighlight] called with each name of a list in turn, up to and
    with the first call that throws. *)
Fixpoint toggleUntilThrow (names : list string) (s : Scheme) : Scheme :=
  match names with
  | [] => s
  | name :: rest =>
      if threw (Call.toggleHighlight name s) then toggleHighlight name s
      else toggleUntilThrow rest (toggleHighlight name s)
  end.

(** ** Closed forms of the drawing functions *)

Lemma drawLabels_fold (ls : list Label.t) (s : Scheme) :
  fold_left
    (fun st label =>
       drawLabel (Label.sLabel label)
                 (parseInt (Label.label_x1 label) + padding (config st))
                 (parseInt (Label.label_y1 label) + padding (config st)) st)
    ls s
  = mkScheme (canvas s) (listEl s)
      (ctx s ++ map (labelText (config s)) ls)
      (labels s) (schemeImg s)
      (areas s
       ++ map (fun label =>
                 Area.new (Label.sLabel label)
                   (parseInt (Label.label_x1 label) + padding (config s))
                   (parseInt (Label.label_y1 label) + padding (config s))
                   (areaRadius (config s))) ls)
      (selectedAreas s) (hoveredArea s) (config s) (listQuery s).
Proof.
  revert s; induction ls as [|l ls IH]; intros s; simpl.
  - rewrite !app_nil_r. destruct s; reflexivity.
  - rewrite IH. simpl. rewrite <- !app_assoc. reflexivity.
Qed.

Lemma drawLabels_eq (s : Scheme) :
  drawLabels s
  = mkScheme (canvas s) (listEl s)
      (ctx s ++ map (labelText (config s)) (labels s))
      (labels s) (schemeImg s) (areas s ++ labelAreas s)
      (selectedAreas s) (hoveredArea s) (config s) (listQuery s).
Proof. unfold drawLabels. rewrite drawLabels_fold. reflexivity. Qed.

Lemma drawSelectedAreas_loop_eq (sel : list Area.t) (s : Scheme) :
  Call.drawSelectedAreas_loop sel s
  = (if allStroked sel then Returns else Throws)
      (set_ctx (ctx s ++ map (areaStroke (config s)) (strokedAreas sel)) s).
Proof.
  revert s; induction sel as [|a sel IH]; intros s; simpl.
  - rewrite app_nil_r. destruct s; reflexivity.
  - unfold Call.drawArea. destruct (Area.radius a <? 0); simpl.
    + rewrite app_nil_r. destruct s; reflexivity.
    + rewrite IH. unfold set_ctx; simpl. rewrite <- app_assoc. reflexivity.
Qed.

Lemma drawSelectedAreas_eq (s : Scheme) :
  Call.drawSelectedAreas s
  = (if allStroked (selectedAreas s) then Returns else Throws)
      (set_ctx (ctx s
                ++ map (areaStroke (config s)) (strokedAreas (selectedAreas s)))
               s).
Proof. apply drawSelectedAreas_loop_eq. Qed.

Lemma Call_drawScheme_eq (s : Scheme) :
  Call.drawScheme s
  = (if allStroked (selectedAreas s) then Returns else Throws)
      (mkScheme
         (Canvas.mk
            (reflectSize 300 (Image.width (schemeImg s) + padding (config s) * 2))
            (reflectSize 150 (Image.height (schemeImg s) + padding (config s) * 2))
            (Canvas.className (canvas s)))
         (listEl s) (ctx s ++ renderPass s) (labels s) (schemeImg s)
         (areas s ++ labelAreas s) (selectedAreas s) (hoveredArea s)
         (config s) (listQuery s)).
Proof.
  unfold Call.drawScheme. rewrite drawSelectedAreas_eq, drawLabels_eq.
  unfold set_ctx, renderPass; simpl. rewrite <- !app_assoc. reflexivity.
Qed.

Lemma drawScheme_eq (s : Scheme) :
  drawScheme s
  = mkScheme
      (Canvas.mk
         (reflectSize 300 (Image.width (schemeImg s) + padding (config s) * 2))
         (reflectSize 150 (Image.height (schemeImg s) + padding (config s) * 2))
         (Canvas.className (canvas s)))
      (listEl s) (ctx s ++ renderPass s) (labels s) (schemeImg s)
      (areas s ++ labelAreas s) (selectedAreas s) (hoveredArea s) (config s)
      (listQuery s).
Proof.
  unfold drawScheme. rewrite Call_drawScheme_eq.
  destruct (allStroked (selectedAreas s)); reflexivity.
Qed.

Lemma Call_redrawScheme_eq (s : Scheme) :
  Call.redrawScheme s
  = (if allStroked (selectedAreas s) then Returns else Throws)
      (mkScheme
         (Canvas.mk
            (reflectSize 300 (Image.width (schemeImg s) + padding (config s) * 2))
            (reflectSize 150 (Image.height (schemeImg s) + padding (config s) * 2))
            (Canvas.className (canvas s)))
         (listEl s)
         (ctx s
          ++ ClearRect 0 0 (Canvas.width (canvas s)) (Canvas.height (canvas s))
          :: renderPass s)
         (labels s) (schemeImg s) (labelAreas s) (selectedAreas s)
         (hoveredArea s) (config s) (listQuery s)).
Proof.
  unfold Call.redrawScheme. rewrite Call_drawScheme_eq. simpl.
  rewrite <- app_assoc. reflexivity.
Qed.

Lemma redrawScheme_eq (s : Scheme) :
  redrawScheme s
  = mkScheme
      (Canvas.mk
         (reflectSize 300 (Image.width (schemeImg s) + padding (config s) * 2))
         (reflectSize 150 (Image.height (schemeImg s) + padding (config s) * 2))
         (Canvas.className (canvas s)))
      (listEl s)
      (ctx s
       ++ ClearRect 0 0 (Canvas.width (canvas s)) (Canvas.height (canvas s))
       :: renderPass s)
      (labels s) (schemeImg s) (labelAreas s) (selectedAreas s)
      (hoveredArea s) (config s) (listQuery s).
Proof.
  unfold redrawScheme. rewrite Call_redrawScheme_eq.
  destruct (allStroked (selectedAreas s)); reflexivity.
Qed.

(** ** Hit testing *)

Lemma inRange_spec (val min max : Z) :
  utility.inRange val min max = true <-> min <= val <= max.
Proof.
  unfold utility.inRange. rewrite andb_true_iff, Z.geb_le, Z.leb_le. lia.
Qed.

Lemma coordsInArea_spec (x y : Z) (area : Area.t) :
  coordsInArea x y area = true
  <-> Area.left area <= x <= Area.right area
      /\ Area.top area <= y <= Area.bottom area.
Proof.
  unfold coordsInArea. rewrite andb_true_iff, !inRange_spec. reflexivity.
Qed.

(** C1: a point matches an area exactly when it lies in the closed bounding
    box [left <= x <= right], [top <= y <= bottom]; for an area built by the
    constructor with a positive radius the corner of the box matches although
    it lies outside the circle of that radius. *)
Theorem coordsInArea_bounding_box :
  (forall (x y : Z) (area : Area.t),
      coordsInArea x y area = true
      <-> (Area.left area <= x /\ x <= Area.right area)
          /\ (Area.top area <= y /\ y <= Area.bottom area))
  /\ (forall (val min max : Z),
         utility.inRange val min max = true <-> (min <= val /\ val <= max))
  /\ (forall (name : string) (cx cy r : Z),
         0 < r ->
         let area := Area.new name cx cy r in
         coordsInArea (Area.right area) (Area.bottom area) area = true
         /\ r * r < (Area.right area - cx) * (Area.right area - cx)
                    + (Area.bottom area - cy) * (Area.bottom area - cy)).
Proof.
  split; [|split].
  - intros x y area. apply coordsInArea_spec.
  - intros val min max. apply inRange_spec.
  - intros name cx cy r Hr area. split.
    + apply coordsInArea_spec. subst area; simpl. lia.
    + subst area; simpl. nia.
Qed.

Lemma coordsInArea_bounding_box_witness :
  coordsInArea 198 205 (Area.new "1" 188 195 10) = true
  /\ 10 * 10 < (198 - 188) * (198 - 188) + (205 - 195) * (205 - 195).
Proof.
  exact (proj2 (proj2 coordsInArea_bounding_box) "1" 188 195 10 eq_refl).
Defined.

(** ** The render pass *)

Lemma nth_error_labelAreas (s : Scheme) (i : nat) (label : Label.t) :
  nth_error (labels s) i = Some label ->
  nth_error (labelAreas s) i
  = Some (Area.new (Label.sLabel label)
            (parseInt (Label.label_x1 label) + padding (config s))
            (parseInt (Label.label_y1 label) + padding (config s))
            (areaRadius (config s))).
Proof.
  intros H. unfold labelAreas. rewrite nth_error_map, H. reflexivity.
Qed.

Lemma nth_error_app_plus {A : Type} (l1 l2 : list A) (i : nat) :
  nth_error (l1 ++ l2) (List.length l1 + i) = nth_error l2 i.
Proof.
  rewrite nth_error_app2 by lia. f_equal. lia.
Qed.

(** C4: in a render pass the area registered for the [i]-th label is the
    [i]-th one appended to the array; its center is
    [(label.x + padding, label.y + padding)], its box is the center minus
    and plus the configured radius, and the label's text is drawn at the
    center. *)
Theorem drawLabels_area_at_text_position
    (s : Scheme) (i : nat) (label : Label.t) :
  nth_error (labels s) i = Some label ->
  exists area : Area.t,
    nth_error (areas (drawScheme s)) (List.length (areas s) + i) = Some area
    /\ nth_error (areas (drawLabels s)) (List.length (areas s) + i) = Some area
    /\ Area.name area = Label.sLabel label
    /\ Area.x area = Label.label_x1 label + padding (config s)
    /\ Area.y area = Label.label_y1 label + padding (config s)
    /\ Area.radius area = areaRadius (config s)
    /\ Area.left area = Area.x area - areaRadius (config s)
    /\ Area.top area = Area.y area - areaRadius (config s)
    /\ Area.right area = Area.x area + areaRadius (config s)
    /\ Area.bottom area = Area.y area + areaRadius (config s)
    /\ nth_error (ctx (drawLabels s)) (List.length (ctx s) + i)
       = Some (FillText (fontSize (config s) ++ " " ++ fontFamily (config s))
                        (fontColor (config s)) (Label.sLabel label)
                        (Area.x area) (Area.y area)).
Proof.
  intros H. eexists. split; [|split].
  - rewrite drawScheme_eq; simpl. rewrite nth_error_app_plus.
    apply nth_error_labelAreas, H.
  - rewrite drawLabels_eq; simpl. rewrite nth_error_app_plus.
    apply nth_error_labelAreas, H.
  - simpl. unfold parseInt. repeat split.
    rewrite drawLabels_eq; simpl. rewrite nth_error_app_plus.
    rewrite nth_error_map, H. reflexivity.
Qed.

Lemma drawLabels_area_at_text_position_witness :
  exists area : Area.t,
    nth_error (areas (drawScheme
      (Scheme_new (Canvas.mk 300 150 "") [] (Image.mk "sheme.png" 400 600)
                  [Label.mk "1" 158 165; Label.mk "1" 49 540] None))) 1
    = Some area
    /\ Area.x area = 79 /\ Area.y area = 570
    /\ Area.left area = 69 /\ Area.bottom area = 580.
Proof.
  destruct (drawLabels_area_at_text_position
              (Scheme_new (Canvas.mk 300 150 "") []
                          (Image.mk "sheme.png" 400 600)
                          [Label.mk "1" 158 165; Label.mk "1" 49 540] None)
              1 (Label.mk "1" 49 540) eq_refl)
    as [area [H1 [_ [_ [Hx [Hy [_ [Hl [_ [_ [Hb _]]]]]]]]]]].
  exists area. simpl in *. repeat split; try assumption; lia.
Defined.

(** ** Toggling *)

Lemma nonempty_false {A : Type} (l : list A) : nonempty l = false <-> l = [].
Proof. destruct l; simpl; split; congruence. Qed.

Lemma toggleHighlight_not_found (partNumber : string) (s : Scheme) :
  findAllAreas partNumber s = [] -> toggleHighlight partNumber s = s.
Proof.
  intros H. unfold toggleHighlight, Call.toggleHighlight. rewrite H.
  reflexivity.
Qed.

(** C8: when no area bears the name, [toggleHighlight] returns the state
    as it is: selected areas, list classes, canvas and drawing log are
    untouched, nothing is redrawn. *)
Theorem toggleHighlight_unknown_name (partNumber : string) (s : Scheme) :
  findAllAreas partNumber s = [] ->
  toggleHighlight partNumber s = s
  /\ selectedAreas (toggleHighlight partNumber s) = selectedAreas s
  /\ listEl (toggleHighlight partNumber s) = listEl s
  /\ canvas (toggleHighlight partNumber s) = canvas s
  /\ ctx (toggleHighlight partNumber s) = ctx s.
Proof.
  intros H. rewrite (toggleHighlight_not_found _ _ H). auto.
Qed.

Lemma toggleHighlight_unknown_name_witness :
  toggleHighlight "7"
    (drawScheme
       (Scheme_new (Canvas.mk 300 150 "") [mkListItem "" [mkSpan "7"]]
                   (Image.mk "sheme.png" 400 600)
                   [Label.mk "1" 158 165] None))
  = drawScheme
      (Scheme_new (Canvas.mk 300 150 "") [mkListItem "" [mkSpan "7"]]
                  (Image.mk "sheme.png" 400 600)
                  [Label.mk "1" 158 165] None).
Proof.
  refine (proj1 (toggleHighlight_unknown_name "7" _ _)). reflexivity.
Defined.

Lemma strokedAreas_all (selected : list Area.t) :
  (forall area, In area selected -> 0 <= Area.radius area) ->
  strokedAreas selected = selected /\ allStroked selected = true.
Proof.
  induction selected as [|a l IH]; intros H; simpl; [auto|].
  assert (Ha : (Area.radius a <? 0) = false)
    by (apply Z.ltb_ge, H; simpl; auto).
  rewrite Ha. simpl.
  destruct IH as [IH1 IH2]; [intros b Hb; apply H; simpl; auto|].
  rewrite IH1, IH2. auto.
Qed.

Lemma redrawScheme_selectedAreas_iter (s : Scheme) (n : nat) :
  selectedAreas (Nat.iter n redrawScheme s) = selectedAreas s.
Proof.
  induction n as [|n IH]; simpl; [reflexivity|].
  rewrite redrawScheme_eq. simpl. exact IH.
Qed.

(** C9, as the code has it: a redraw keeps the selected areas and rebuilds
    the area array, and any number of redraws keeps the selection; when no
    selected area has a negative radius, the render pass it appends to the
    canvas log after clearing ends with a stroke of every selected area. *)
Theorem redrawScheme_keeps_selection (s : Scheme) :
  selectedAreas (redrawScheme s) = selectedAreas s
  /\ areas (redrawScheme s) = labelAreas s
  /\ ((forall area, In area (selectedAreas s) -> 0 <= Area.radius area) ->
      selectionStroked s)
  /\ (forall n : nat,
         selectedAreas (Nat.iter n redrawScheme s) = selectedAreas s).
Proof.
  split; [|split; [|split]].
  - rewrite redrawScheme_eq. reflexivity.
  - rewrite redrawScheme_eq. reflexivity.
  - intros Hr. unfold selectionStroked.
    rewrite redrawScheme_eq; simpl. unfold renderPass.
    destruct (strokedAreas_all _ Hr) as [-> _].
    eexists (_ :: _ :: _). simpl. reflexivity.
  - apply redrawScheme_selectedAreas_iter.
Qed.

Lemma redrawScheme_keeps_selection_witness :
  selectionStroked
    (toggleHighlight "1"
       (drawScheme
          (Scheme_new (Canvas.mk 300 150 "") [mkListItem "" [mkSpan "1"]]
                      (Image.mk "sheme.png" 400 600)
                      [Label.mk "1" 158 165; Label.mk "1" 49 540] None))).
Proof.
  apply redrawScheme_keeps_selection.
  intros area [<-|[<-|[]]]; simpl; lia.
Defined.

(** C9, as stated, fails: with a negative area radius [ctx.arc] throws at
    the first selected area, the render pass ends there and no selected area
    is stroked. *)
Lemma redrawScheme_keeps_selection_counterexample :
  ~ selectionStroked
      (toggleHighlight "1"
         (drawScheme
            (Scheme_new (Canvas.mk 300 150 "") [mkListItem "" [mkSpan "1"]]
                        (Image.mk "sheme.png" 400 600)
                        [Label.mk "1" 158 165]
                        (Some [p_areaRadius (-1)])))).
Proof.
  intros [before H].
  match type of H with
  | ctx ?r = (_ ++ _ :: _ ++ ?strokes)%list =>
      assert (E : last (ctx r) (ClearRect 0 0 0 0)
                  = FillText "12px Arial" "#555555" "1" 188 195)
        by (vm_compute; reflexivity);
      replace strokes with [StrokeArc "#a52a2a" 1 188 195 (-1)] in H
        by (vm_compute; reflexivity)
  end.
  rewrite H, app_comm_cons, app_assoc, last_last in E. discriminate.
Qed.

(** ** Hovering *)

Lemma areaHovered_scan_find (e : MouseEvent) (l : list Area.t) :
  areaHovered_scan e l = find (coordsInArea (offsetX e) (offsetY e)) l.
Proof.
  induction l as [|a l IH]; simpl; [reflexivity|].
  rewrite IH. reflexivity.
Qed.

Lemma areaHovered_scan_first (e : MouseEvent) (l : list Area.t) (area : Area.t) :
  areaHovered_scan e l = Some area ->
  exists before after,
    l = (before ++ area :: after)%list
    /\ coordsInArea (offsetX e) (offsetY e) area = true
    /\ forall a, In a before -> coordsInArea (offsetX e) (offsetY e) a = false.
Proof.
  induction l as [|a l IH]; simpl; [discriminate|].
  destruct (coordsInArea (offsetX e) (offsetY e) a) eqn:Ha.
  - intros [= <-]. exists [], l. repeat split; [assumption|]. intros ? [].
  - intros H. destruct (IH H) as [before [after [-> [Hin Hnot]]]].
    exists (a :: before), after. repeat split; [assumption|].
    intros b [<-|Hb]; auto.
Qed.

Lemma areaHovered_hovered (e : MouseEvent) (s : Scheme) :
  hoveredArea (areaHovered e s)
  = match hoveredArea s with
    | None => areaHovered_scan e (areas s)
    | Some hovered =>
        if coordsInArea (offsetX e) (offsetY e) hovered then Some hovered
        else None
    end.
Proof.
  unfold areaHovered. destruct (hoveredArea s) as [hovered|] eqn:Hh.
  - destruct (coordsInArea (offsetX e) (offsetY e) hovered); simpl; auto.
  - destruct (areaHovered_scan e (areas s)); simpl; auto.
Qed.

Lemma areaHovered_step (e : MouseEvent) (s : Scheme) :
  hoverStep (hoveredArea s) (hoveredArea (areaHovered e s)).
Proof.
  rewrite areaHovered_hovered. destruct (hoveredArea s) as [hovered|].
  - destruct (coordsInArea (offsetX e) (offsetY e) hovered); constructor.
  - destruct (areaHovered_scan e (areas s)); constructor.
Qed.

(** C7: the hover state is empty or one area. From the empty state a
    mousemove enters the first area of the array under the pointer (or stays
    empty when there is none); from a hovered area it stays on that area
    while the pointer is in its box and goes to the empty state otherwise;
    so no event leads from one hovered area to a different one, and along
    every sequence of mousemove events each step stays, enters or leaves. *)
Theorem areaHovered_one_step :
  (forall (e : MouseEvent) (s : Scheme),
      hoveredArea s = None ->
      hoveredArea (areaHovered e s)
      = find (coordsInArea (offsetX e) (offsetY e)) (areas s))
  /\ (forall (e : MouseEvent) (s : Scheme) (area : Area.t),
         hoveredArea s = None ->
         hoveredArea (areaHovered e s) = Some area ->
         exists before after,
           areas s = (before ++ area :: after)%list
           /\ coordsInArea (offsetX e) (offsetY e) area = true
           /\ forall a, In a before ->
                        coordsInArea (offsetX e) (offsetY e) a = false)
  /\ (forall (e : MouseEvent) (s : Scheme) (hovered : Area.t),
         hoveredArea s = Some hovered ->
         hoveredArea (areaHovered e s)
         = if coordsInArea (offsetX e) (offsetY e) hovered
           then Some hovered else None)
  /\ (forall (e : MouseEvent) (s : Scheme) (a b : Area.t),
         hoveredArea s = Some a ->
         hoveredArea (areaHovered e s) = Some b -> a = b)
  /\ (forall (es : list MouseEvent) (s : Scheme),
         chain hoverStep (hoverTrace es s)).
Proof.
  repeat split.
  - intros e s H. rewrite areaHovered_hovered, H. apply areaHovered_scan_find.
  - intros e s area H H'. rewrite areaHovered_hovered, H in H'.
    apply areaHovered_scan_first, H'.
  - intros e s hovered H. rewrite areaHovered_hovered, H. reflexivity.
  - intros e s a b H H'. rewrite areaHovered_hovered, H in H'.
    destruct (coordsInArea (offsetX e) (offsetY e) a); congruence.
  - intros es. induction es as [|e es IH]; intros s; simpl; [exact I|].
    specialize (IH (areaHovered e s)).
    destruct es as [|e' es]; simpl in *.
    + split; [apply areaHovered_step | exact I].
    + split; [apply areaHovered_step | exact IH].
Qed.

Lemma areaHovered_one_step_witness :
  let s := drawScheme
             (Scheme_new (Canvas.mk 300 150 "") []
                         (Image.mk "sheme.png" 400 600)
                         [Label.mk "1" 158 165; Label.mk "2" 170 165] None) in
  hoveredArea (areaHovered (mkMouseEvent 195 195) s)
  = Some (Area.new "1" 188 195 10)
  /\ hoveredArea (areaHovered (mkMouseEvent 205 195)
                    (areaHovered (mkMouseEvent 195 195) s))
     = None.
Proof.
  intros s. split.
  - exact (proj1 areaHovered_one_step (mkMouseEvent 195 195) s eq_refl).
  - exact (proj1 (proj2 (proj2 areaHovered_one_step))
             (mkMouseEvent 205 195)
             (areaHovered (mkMouseEvent 195 195) s)
             (Area.new "1" 188 195 10) eq_refl).
Defined.

(** ** Closed form of [toggleHighlight] *)

Lemma removeSelectedAreas_loop_eq (name : string) (selected : list Area.t) :
  removeSelectedAreas_loop name selected
  = (filter (named name) selected,
     filter (fun a => negb (named name a)) selected).
Proof.
  induction selected as [|a l IH]; simpl; [reflexivity|].
  rewrite IH. unfold named.
  destruct (String.eqb (Area.name a) name); reflexivity.
Qed.

Lemma filter_none_negb {A : Type} (f : A -> bool) (l : list A) :
  filter f l = [] -> filter (fun a => negb (f a)) l = l.
Proof.
  induction l as [|a l IH]; simpl; [reflexivity|].
  destruct (f a); simpl; [discriminate|]. intros H. rewrite IH; auto.
Qed.

Lemma classesAndRedraw_eq (partNumber : string)
    (func : string -> string -> string) (s : Scheme) :
  classesAndRedraw partNumber func s
  = match itemsAfter partNumber func (listQuery s) (listEl s) with
    | Some items => Call.redrawScheme (set_listEl items s)
    | None => Throws s
    end.
Proof.
  unfold classesAndRedraw, Call.toggleItemHighlight.
  destruct (itemsAfter partNumber func (listQuery s) (listEl s)); reflexivity.
Qed.

Lemma itemsAfter_safe (partNumber : string)
    (func : string -> string -> string)
    (query : string -> list ListItem -> SelectorResult)
    (items : list ListItem) :
  selectorSafe partNumber = true ->
  itemsAfter partNumber func query items
  = Some (map (highlightParent partNumber func) items).
Proof. intros H. unfold itemsAfter. rewrite H. reflexivity. Qed.

Lemma itemsAfter_returns (partNumber : string)
    (func : string -> string -> string) (s : Scheme) :
  match itemsAfter partNumber func (listQuery s) (listEl s) with
  | Some _ => true
  | None => false
  end = selectorReturns partNumber s.
Proof.
  unfold itemsAfter, selectorReturns.
  destruct (selectorSafe partNumber); [reflexivity|].
  destruct (listQuery s partNumber (listEl s)); reflexivity.
Qed.

Lemma selectorReturns_safe (partNumber : string) (s : Scheme) :
  selectorSafe partNumber = true -> selectorReturns partNumber s = true.
Proof. intros H. unfold selectorReturns. rewrite H. reflexivity. Qed.

Lemma classesAndRedraw_state (partNumber : string)
    (func : string -> string -> string) (s : Scheme) :
  stateOf (classesAndRedraw partNumber func s)
  = match itemsAfter partNumber func (listQuery s) (listEl s) with
    | Some items => redrawScheme (set_listEl items s)
    | None => s
    end.
Proof.
  rewrite classesAndRedraw_eq.
  destruct (itemsAfter partNumber func (listQuery s) (listEl s)); reflexivity.
Qed.

Lemma classesAndRedraw_threw (partNumber : string)
    (func : string -> string -> string) (s : Scheme) :
  threw (classesAndRedraw partNumber func s)
  = negb (selectorReturns partNumber s)
    || negb (allStroked (selectedAreas s)).
Proof.
  rewrite classesAndRedraw_eq, <- (itemsAfter_returns partNumber func).
  destruct (itemsAfter partNumber func (listQuery s) (listEl s));
    [|reflexivity].
  rewrite Call_redrawScheme_eq. simpl.
  destruct (allStroked (selectedAreas s)); reflexivity.
Qed.

Lemma Call_toggleHighlight_eq (partNumber : string) (s : Scheme) :
  Call.toggleHighlight partNumber s
  = if nonempty (findAllAreas partNumber s) then
      if nonempty (filter (named partNumber) (selectedAreas s)) then
        classesAndRedraw partNumber utility.removeClass
          (set_selectedAreas
             (filter (fun a => negb (named partNumber a)) (selectedAreas s)) s)
      else
        classesAndRedraw partNumber utility.addClass
          (set_selectedAreas
             (selectedAreas s ++ findAllAreas partNumber s) s)
    else Returns s.
Proof.
  unfold Call.toggleHighlight, removeSelectedAreas.
  rewrite removeSelectedAreas_loop_eq.
  destruct (nonempty (findAllAreas partNumber s)); [|reflexivity].
  destruct (nonempty (filter (named partNumber) (selectedAreas s))) eqn:Hr;
    [reflexivity|].
  apply nonempty_false in Hr. simpl.
  rewrite (filter_none_negb _ _ Hr). reflexivity.
Qed.

Lemma toggleHighlight_eq (partNumber : string) (s : Scheme) :
  toggleHighlight partNumber s
  = if nonempty (findAllAreas partNumber s) then
      if nonempty (filter (named partNumber) (selectedAreas s)) then
        stateOf
          (classesAndRedraw partNumber utility.removeClass
             (set_selectedAreas
                (filter (fun a => negb (named partNumber a)) (selectedAreas s))
                s))
      else
        stateOf
          (classesAndRedraw partNumber utility.addClass
             (set_selectedAreas
                (selectedAreas s ++ findAllAreas partNumber s) s))
    else s.
Proof.
  unfold toggleHighlight. rewrite Call_toggleHighlight_eq.
  destruct (nonempty (findAllAreas partNumber s)); [|reflexivity].
  destruct (nonempty (filter (named partNumber) (selectedAreas s)));
    reflexivity.
Qed.

(** The fields after a toggle: the cases of [toggleHighlight_eq], each with
    the selector accepted or not. *)
Ltac toggle_cases partNumber s :=
  rewrite toggleHighlight_eq;
  destruct (nonempty (findAllAreas partNumber s));
  [ destruct (nonempty (filter (named partNumber) (selectedAreas s)));
    rewrite classesAndRedraw_state; unfold itemsAfter, selectorReturns;
    cbn [listQuery listEl set_selectedAreas];
    (destruct (selectorSafe partNumber);
     [ | destruct (listQuery s partNumber (listEl s)) ]);
    try rewrite redrawScheme_eq
  | unfold selectorReturns ].

Lemma toggleHighlight_areas (partNumber : string) (s : Scheme) :
  areas (toggleHighlight partNumber s)
  = if nonempty (findAllAreas partNumber s) && selectorReturns partNumber s
    then labelAreas s else areas s.
Proof. toggle_cases partNumber s; reflexivity. Qed.

Lemma toggleHighlight_selectedAreas (partNumber : string) (s : Scheme) :
  selectedAreas (toggleHighlight partNumber s)
  = if nonempty (findAllAreas partNumber s) then
      if nonempty (filter (named partNumber) (selectedAreas s)) then
        filter (fun a => negb (named partNumber a)) (selectedAreas s)
      else (selectedAreas s ++ findAllAreas partNumber s)%list
    else selectedAreas s.
Proof. toggle_cases partNumber s; reflexivity. Qed.

Lemma toggleHighlight_listEl (partNumber : string) (s : Scheme) :
  listEl (toggleHighlight partNumber s)
  = if nonempty (findAllAreas partNumber s) then
      match itemsAfter partNumber
              (if nonempty (filter (named partNumber) (selectedAreas s))
               then utility.removeClass else utility.addClass)
              (listQuery s) (listEl s) with
      | Some items => items
      | None => listEl s
      end
    else listEl s.
Proof. toggle_cases partNumber s; reflexivity. Qed.

Lemma toggleHighlight_listEl_safe (partNumber : string) (s : Scheme) :
  selectorSafe partNumber = true ->
  listEl (toggleHighlight partNumber s)
  = if nonempty (findAllAreas partNumber s) then
      map (highlightParent partNumber
             (if nonempty (filter (named partNumber) (selectedAreas s))
              then utility.removeClass else utility.addClass))
          (listEl s)
    else listEl s.
Proof.
  intros H. rewrite toggleHighlight_listEl, itemsAfter_safe by assumption.
  reflexivity.
Qed.

Lemma toggleHighlight_listQuery (partNumber : string) (s : Scheme) :
  listQuery (toggleHighlight partNumber s) = listQuery s.
Proof. toggle_cases partNumber s; reflexivity. Qed.

Lemma toggleHighlight_frame (partNumber : string) (s : Scheme) :
  config (toggleHighlight partNumber s) = config s
  /\ labels (toggleHighlight partNumber s) = labels s
  /\ schemeImg (toggleHighlight partNumber s) = schemeImg s
  /\ hoveredArea (toggleHighlight partNumber s) = hoveredArea s.
Proof. toggle_cases partNumber s; auto. Qed.

Lemma toggleHighlight_labelAreas (partNumber : string) (s : Scheme) :
  labelAreas (toggleHighlight partNumber s) = labelAreas s.
Proof.
  destruct (toggleHighlight_frame partNumber s) as [Hc [Hl _]].
  unfold labelAreas. rewrite Hc, Hl. reflexivity.
Qed.

(** A toggle throws when the name has areas and either the selector is
    refused or a selected area has a negative radius. *)
Lemma toggleHighlight_threw (partNumber : string) (s : Scheme) :
  threw (Call.toggleHighlight partNumber s)
  = nonempty (findAllAreas partNumber s)
    && (negb (selectorReturns partNumber s)
        || negb (allStroked (selectedAreas (toggleHighlight partNumber s)))).
Proof.
  rewrite toggleHighlight_selectedAreas, Call_toggleHighlight_eq.
  destruct (nonempty (findAllAreas partNumber s)); [|reflexivity].
  destruct (nonempty (filter (named partNumber) (selectedAreas s)));
    rewrite classesAndRedraw_threw; reflexivity.
Qed.

Lemma Call_toggleHighlight_state (partNumber : string) (s : Scheme) :
  Call.toggleHighlight partNumber s
  = (if threw (Call.toggleHighlight partNumber s) then Throws else Returns)
      (toggleHighlight partNumber s).
Proof.
  unfold toggleHighlight.
  destruct (Call.toggleHighlight partNumber s); reflexivity.
Qed.

(** ** The click loop *)

Lemma Call_areaClicked_loop_S (fuel : nat) (e : MouseEvent) (i : nat)
    (s : Scheme) :
  Call.areaClicked_loop (S fuel) e i s
  = match nth_error (areas s) i with
    | None => Returns s
    | Some area =>
        andThen
          (if coordsInArea (offsetX e) (offsetY e) area
           then Call.toggleHighlight (Area.name area) s
           else Returns s)
          (Call.areaClicked_loop fuel e (S i))
    end.
Proof. reflexivity. Qed.

Lemma areaClicked_loop_S (fuel : nat) (e : MouseEvent) (i : nat) (s : Scheme) :
  areaClicked_loop (S fuel) e i s
  = match nth_error (areas s) i with
    | None => s
    | Some area =>
        if coordsInArea (offsetX e) (offsetY e) area then
          if threw (Call.toggleHighlight (Area.name area) s)
          then toggleHighlight (Area.name area) s
          else areaClicked_loop fuel e (S i)
                 (toggleHighlight (Area.name area) s)
        else areaClicked_loop fuel e (S i) s
    end.
Proof.
  unfold areaClicked_loop, toggleHighlight. rewrite Call_areaClicked_loop_S.
  destruct (nth_error (areas s) i) as [area|]; [|reflexivity].
  destruct (coordsInArea (offsetX e) (offsetY e) area); [|reflexivity].
  destruct (Call.toggleHighlight (Area.name area) s); reflexivity.
Qed.

Lemma areaClicked_loop_invariant (P : Scheme -> Prop) :
  (forall name s, P s -> P (toggleHighlight name s)) ->
  forall fuel e i s, P s -> P (areaClicked_loop fuel e i s).
Proof.
  intros HP fuel e. unfold areaClicked_loop.
  induction fuel as [|fuel IH]; intros i s Hs; [exact Hs|].
  rewrite Call_areaClicked_loop_S.
  destruct (nth_error (areas s) i) as [area|]; [|exact Hs].
  destruct (coordsInArea (offsetX e) (offsetY e) area).
  - pose proof (HP (Area.name area) s Hs) as Ht. unfold toggleHighlight in Ht.
    destruct (Call.toggleHighlight (Area.name area) s) as [s1|s1]; simpl in *.
    + apply IH, Ht.
    + exact Ht.
  - simpl. apply IH, Hs.
Qed.





Lemma nth_error_skipn {A : Type} (l : list A) (i : nat) (a : A) :
  nth_error l i = Some a -> skipn i l = a :: skipn (S i) l.
Proof.
  revert i; induction l as [|b l IH]; intros [|i]; simpl; try discriminate.
  - intros [= ->]. reflexivity.
  - apply IH.
Qed.

Lemma findAllAreas_In (a : Area.t) (s : Scheme) :
  In a (areas s) -> nonempty (findAllAreas (Area.name a) s) = true.
Proof.
  intros H. unfold findAllAreas.
  destruct (filter _ (areas s)) eqn:Hf; [|reflexivity].
  assert (Hin : In a (filter (fun b => String.eqb (Area.name b) (Area.name a))
                         (areas s)))
    by (apply filter_In; split; [assumption | apply String.eqb_refl]).
  rewrite Hf in Hin. destruct Hin.
Qed.

Lemma Call_areaClicked_loop_miss (fuel : nat) (e : MouseEvent) :
  forall (i : nat) (s : Scheme),
    (forall a, In a (areas s) ->
               coordsInArea (offsetX e) (offsetY e) a = false) ->
    Call.areaClicked_loop fuel e i s = Returns s.
Proof.
  induction fuel as [|fuel IH]; intros i s Hm; [reflexivity|].
  rewrite Call_areaClicked_loop_S.
  destruct (nth_error (areas s) i) as [area|] eqn:Hn; [|reflexivity].
  rewrite (Hm area) by (eapply nth_error_In; eauto).
  simpl. apply IH, Hm.
Qed.

Lemma areaClicked_loop_miss (fuel : nat) (e : MouseEvent) :
  forall (i : nat) (s : Scheme),
    (forall a, In a (areas s) ->
               coordsInArea (offsetX e) (offsetY e) a = false) ->
    areaClicked_loop fuel e i s = s.
Proof.
  intros i s Hm. unfold areaClicked_loop.
  rewrite Call_areaClicked_loop_miss by assumption. reflexivity.
Qed.

(** ** The states of a widget *)

Lemma named_true (name : string) (a : Area.t) :
  named name a = true <-> Area.name a = name.
Proof. unfold named. apply String.eqb_eq. Qed.

Lemma named_false (name : string) (a : Area.t) :
  named name a = false <-> Area.name a <> name.
Proof. unfold named. apply String.eqb_neq. Qed.

Lemma filter_named_nil (name : string) (l : list Area.t) :
  filter (named name) l = [] <-> forall a, In a l -> Area.name a <> name.
Proof.
  split.
  - intros H a Ha Hn.
    assert (Hin : In a (filter (named name) l))
      by (apply filter_In; split; [assumption | apply named_true, Hn]).
    rewrite H in Hin. destruct Hin.
  - intros H. induction l as [|a l IH]; simpl; [reflexivity|].
    destruct (named name a) eqn:Ha.
    + apply named_true in Ha. exfalso. apply (H a); simpl; auto.
    + apply IH. intros b Hb. apply H. simpl; auto.
Qed.

Lemma filter_twice {A : Type} (f : A -> bool) (l : list A) :
  filter f (filter f l) = filter f l.
Proof.
  induction l as [|a l IH]; simpl; [reflexivity|].
  destruct (f a) eqn:E; simpl; [rewrite E; f_equal|]; exact IH.
Qed.

Lemma toggleHighlight_consistent (loaded : bool) (name : string) (s : Scheme) :
  consistent loaded s -> consistent loaded (toggleHighlight name s).
Proof.
  intros [Ha [Hi Hs]]. unfold consistent.
  rewrite toggleHighlight_labelAreas, toggleHighlight_areas.
  unfold notSelected. rewrite toggleHighlight_selectedAreas.
  destruct (nonempty (findAllAreas name s)) eqn:Hf; [|split; auto].
  assert (Hl : loaded = true).
  { destruct loaded; [reflexivity|].
    unfold findAllAreas in Hf. rewrite Ha in Hf. discriminate. }
  subst loaded. split; [simpl; destruct (selectorReturns name s); auto|]. split.
  { destruct (nonempty (filter (named name) (selectedAreas s))); intros a Hin.
    - apply filter_In in Hin. apply Hi, Hin.
    - apply in_app_or in Hin. destruct Hin as [Hin|Hin]; [auto|].
      apply filter_In in Hin. rewrite <- Ha. apply Hin. }
  intros n.
  destruct (nonempty (filter (named name) (selectedAreas s))) eqn:Hr.
  - destruct (String.eqb_spec n name) as [->|Hne].
    + right. intros a Hin. apply filter_In in Hin. destruct Hin as [_ Hin].
      apply named_false. destruct (named name a); [discriminate|reflexivity].
    + destruct (Hs n) as [Hall|Hnone].
      * left. intros a Hin Hn. apply filter_In. split; [auto|].
        apply negb_true_iff, named_false. congruence.
      * right. intros a Hin. apply filter_In in Hin. apply Hnone, Hin.
  - destruct (String.eqb_spec n name) as [->|Hne].
    + left. intros a Hin Hn. apply in_or_app. right.
      unfold findAllAreas. rewrite Ha. apply filter_In. split; [assumption|].
      apply String.eqb_eq, Hn.
    + destruct (Hs n) as [Hall|Hnone].
      * left. intros a Hin Hn. apply in_or_app. left. auto.
      * right. intros a Hin. apply in_app_or in Hin. destruct Hin as [Hin|Hin].
        -- apply Hnone, Hin.
        -- apply filter_In in Hin. destruct Hin as [_ Hin].
           apply String.eqb_eq in Hin. congruence.
Qed.

Lemma areaHovered_frame (e : MouseEvent) (s : Scheme) :
  areas (areaHovered e s) = areas s
  /\ selectedAreas (areaHovered e s) = selectedAreas s
  /\ labels (areaHovered e s) = labels s
  /\ config (areaHovered e s) = config s
  /\ listEl (areaHovered e s) = listEl s
  /\ ctx (areaHovered e s) = ctx s.
Proof.
  unfold areaHovered. destruct (hoveredArea s) as [hovered|].
  - destruct (coordsInArea (offsetX e) (offsetY e) hovered); simpl; auto 10.
  - destruct (areaHovered_scan e (areas s)); simpl; auto 10.
Qed.

Lemma areaHovered_consistent (loaded : bool) (e : MouseEvent) (s : Scheme) :
  consistent loaded s -> consistent loaded (areaHovered e s).
Proof.
  destruct (areaHovered_frame e s) as [Ha [Hs [Hl [Hc _]]]].
  unfold consistent, notSelected, labelAreas. rewrite Ha, Hs, Hl, Hc. auto.
Qed.

Lemma setConfig_frame (params : list Param) (s : Scheme) :
  areas (setConfig params s) = areas s
  /\ selectedAreas (setConfig params s) = selectedAreas s.
Proof. split; reflexivity. Qed.

Lemma reachable_consistent (loaded : bool) (s : Scheme) :
  reachable loaded s -> consistent loaded s.
Proof.
  induction 1 as [canvasEl listItems img labelsJSON params
                 | canvasEl listItems img labelsJSON params query
                 | s Hr IH | loaded s ev Hr IH Hev].
  - destruct params as [ps|]; repeat split; simpl; auto;
      try (intros a []); intros name; right; intros a [].
  - destruct params as [ps|]; repeat split; simpl; auto;
      try (intros a []); intros name; right; intros a [].
  - destruct IH as [Ha [Hi Hs]]. simpl. rewrite drawScheme_eq.
    repeat split; simpl.
    + rewrite Ha. reflexivity.
    + exact Hi.
    + exact Hs.
  - destruct ev as [|e|e|this]; simpl; try discriminate.
    + unfold areaClicked.
      apply areaClicked_loop_invariant; [|assumption].
      intros name st. apply toggleHighlight_consistent.
    + apply areaHovered_consistent, IH.
    + apply toggleHighlight_consistent, IH.
Qed.

Lemma consistent_all_or_none (loaded : bool) (s : Scheme) (name : string) :
  consistent loaded s -> fullySelected name s \/ notSelected name s.
Proof.
  intros [Ha [_ Hs]].
  destruct (Hs name) as [Hall|Hnone]; [left|right; assumption].
  intros a Hin. rewrite Ha in Hin. destruct loaded; [auto | destruct Hin].
Qed.

(** C3: in every state of a widget each name has all of its areas selected
    or none of them; a toggle keeps this, and on a name that has areas it
    either selects all of them, duplicates included, from none selected, or
    deselects every area of that name. *)
Theorem toggleHighlight_all_or_none :
  (forall (loaded : bool) (s : Scheme) (name : string),
      reachable loaded s -> fullySelected name s \/ notSelected name s)
  /\ (forall (loaded : bool) (s : Scheme) (partNumber name : string),
         reachable loaded s ->
         fullySelected name (toggleHighlight partNumber s)
         \/ notSelected name (toggleHighlight partNumber s))
  /\ (forall (loaded : bool) (s : Scheme) (partNumber : string),
         reachable loaded s ->
         findAllAreas partNumber s <> [] ->
         (notSelected partNumber s
          /\ fullySelected partNumber (toggleHighlight partNumber s)
          /\ filter (named partNumber)
                    (selectedAreas (toggleHighlight partNumber s))
             = findAllAreas partNumber (toggleHighlight partNumber s))
         \/ (fullySelected partNumber s
             /\ notSelected partNumber (toggleHighlight partNumber s))).
Proof.
  split; [|split].
  - intros loaded s name Hr.
    eapply consistent_all_or_none, reachable_consistent, Hr.
  - intros loaded s partNumber name Hr.
    eapply consistent_all_or_none, toggleHighlight_consistent,
      reachable_consistent, Hr.
  - intros loaded s partNumber Hr Hf.
    pose proof (reachable_consistent _ _ Hr) as Hc.
    pose proof (toggleHighlight_consistent _ partNumber _ Hc) as [Ha' _].
    destruct Hc as [Ha [_ Hs]].
    assert (Hne : nonempty (findAllAreas partNumber s) = true).
    { destruct (findAllAreas partNumber s); [congruence | reflexivity]. }
    assert (Hl : loaded = true).
    { destruct loaded; [reflexivity|].
      unfold findAllAreas in Hf. rewrite Ha in Hf. simpl in Hf. congruence. }
    subst loaded.
    unfold fullySelected, notSelected, findAllAreas.
    rewrite Ha', toggleHighlight_labelAreas.
    rewrite toggleHighlight_selectedAreas, Hne.
    destruct (nonempty (filter (named partNumber) (selectedAreas s))) eqn:Hr'.
    + right. split.
      * destruct (Hs partNumber) as [Hall|Hnone].
        -- intros a Hin. rewrite Ha in Hin. auto.
        -- apply filter_named_nil in Hnone. rewrite Hnone in Hr'. discriminate.
      * intros a Hin. apply filter_In in Hin. destruct Hin as [_ Hin].
        apply named_false. destruct (named partNumber a); [discriminate|auto].
    + left. apply nonempty_false in Hr'. split; [|split].
      * apply filter_named_nil, Hr'.
      * intros a Hin Hn. apply in_or_app. right.
        unfold findAllAreas. rewrite Ha. apply filter_In. split; [assumption|].
        apply String.eqb_eq, Hn.
      * rewrite filter_app, Hr'. simpl. unfold findAllAreas. rewrite Ha.
        apply filter_twice.
Qed.

Lemma toggleHighlight_all_or_none_witness :
  let s := dispatch ImageLoad
             (Scheme_new (Canvas.mk 300 150 "") [mkListItem "" [mkSpan "1"]]
                         (Image.mk "sheme.png" 400 600)
                         [Label.mk "1" 158 165; Label.mk "1" 49 540] None) in
  (fullySelected "1" s \/ notSelected "1" s)
  /\ ((notSelected "1" s
       /\ fullySelected "1" (toggleHighlight "1" s)
       /\ filter (named "1") (selectedAreas (toggleHighlight "1" s))
          = findAllAreas "1" (toggleHighlight "1" s))
      \/ (fullySelected "1" s /\ notSelected "1" (toggleHighlight "1" s))).
Proof.
  intros s.
  assert (Hr : reachable true s) by (apply reach_load, reach_new).
  split.
  - exact (proj1 toggleHighlight_all_or_none true s "1" Hr).
  - apply (proj2 (proj2 toggleHighlight_all_or_none) true s "1" Hr).
    vm_compute. discriminate.
Defined.

(** ** Clicks on the canvas *)

Lemma reachable_areas (loaded : bool) (s : Scheme) :
  reachable loaded s -> areas s = if loaded then labelAreas s else [].
Proof. intros H. apply (reachable_consistent _ _ H). Qed.

(** ** The area array after a redraw *)

(** C6: after a redraw the area array is the list of the labels' areas,
    one per label in label order, whatever the array held before; so it is
    in every state of a widget whose image has loaded. *)
Theorem redrawScheme_areas_per_label :
  (forall s : Scheme,
      areas (redrawScheme s) = labelAreas s
      /\ List.length (areas (redrawScheme s)) = List.length (labels s)
      /\ labels (redrawScheme s) = labels s
      /\ map Area.name (areas (redrawScheme s)) = map Label.sLabel (labels s))
  /\ (forall (s : Scheme) (old : list Area.t),
         areas (redrawScheme (set_areas old s)) = areas (redrawScheme s))
  /\ (forall s : Scheme,
         reachable true s ->
         areas s = labelAreas s
         /\ List.length (areas s) = List.length (labels s)).
Proof.
  split; [|split].
  - intros s. rewrite redrawScheme_eq; simpl. repeat split.
    + unfold labelAreas. apply length_map.
    + unfold labelAreas. rewrite map_map. reflexivity.
  - intros s old. rewrite !redrawScheme_eq. reflexivity.
  - intros s Hr. rewrite (reachable_areas _ _ Hr). split; [reflexivity|].
    unfold labelAreas. apply length_map.
Qed.

Lemma redrawScheme_areas_per_label_witness :
  let s := dispatch (ItemClick (mkSpan "1"))
             (dispatch ImageLoad
                (Scheme_new (Canvas.mk 300 150 "") [mkListItem "" [mkSpan "1"]]
                            (Image.mk "sheme.png" 400 600)
                            [Label.mk "1" 158 165; Label.mk "1" 49 540] None)) in
  areas s = labelAreas s /\ List.length (areas s) = List.length (labels s).
Proof.
  intros s.
  apply (proj2 (proj2 redrawScheme_areas_per_label) s).
  apply (reach_user true); [|reflexivity].
  apply reach_load, reach_new.
Defined.

Lemma labelAreas_radius (s : Scheme) (a : Area.t) :
  In a (labelAreas s) -> Area.radius a = areaRadius (config s).
Proof.
  unfold labelAreas. intros H. apply in_map_iff in H.
  destruct H as [label [<- _]]. reflexivity.
Qed.

Lemma labelAreas_hit_radius (s : Scheme) (a : Area.t) (x y : Z) :
  In a (labelAreas s) -> coordsInArea x y a = true ->
  0 <= areaRadius (config s).
Proof.
  unfold labelAreas. intros H Hhit. apply in_map_iff in H.
  destruct H as [label [<- _]]. apply coordsInArea_spec in Hhit.
  simpl in Hhit. lia.
Qed.

Lemma consistent_allStroked (loaded : bool) (s : Scheme) :
  consistent loaded s -> 0 <= areaRadius (config s) ->
  allStroked (selectedAreas s) = true.
Proof.
  intros [_ [Hi _]] Hr. apply strokedAreas_all. intros a Ha.
  rewrite (labelAreas_radius s a (Hi a Ha)). exact Hr.
Qed.

Lemma toggleHighlight_returns (loaded : bool) (name : string) (s : Scheme) :
  consistent loaded s -> selectorSafe name = true ->
  0 <= areaRadius (config s) ->
  Call.toggleHighlight name s = Returns (toggleHighlight name s).
Proof.
  intros Hc Hsafe Hr.
  rewrite Call_toggleHighlight_state at 1.
  rewrite toggleHighlight_threw, (selectorReturns_safe _ _ Hsafe).
  rewrite (consistent_allStroked loaded).
  - rewrite andb_false_r. reflexivity.
  - apply toggleHighlight_consistent, Hc.
  - destruct (toggleHighlight_frame name s) as [-> _]. exact Hr.
Qed.

Lemma Call_areaClicked_loop_safe (fuel : nat) (e : MouseEvent) :
  forall (i : nat) (s : Scheme),
    consistent true s ->
    (List.length (areas s) - i <= fuel)%nat ->
    (forall a, In a (skipn i (areas s)) ->
               coordsInArea (offsetX e) (offsetY e) a = true ->
               selectorSafe (Area.name a) = true) ->
    Call.areaClicked_loop fuel e i s
    = Returns
        (toggleAll
           (map Area.name
              (filter (coordsInArea (offsetX e) (offsetY e))
                      (skipn i (areas s))))
           s).
Proof.
  induction fuel as [|fuel IH]; intros i s Hc Hb Hsafe.
  - simpl. rewrite skipn_all2 by lia. reflexivity.
  - rewrite Call_areaClicked_loop_S.
    destruct (nth_error (areas s) i) as [area|] eqn:Hn.
    + rewrite (nth_error_skipn _ _ _ Hn) in Hsafe |- *. simpl.
      assert (Hin : In area (areas s)) by (eapply nth_error_In; eauto).
      destruct (coordsInArea (offsetX e) (offsetY e) area) eqn:Hhit.
      * assert (Har : areas s = labelAreas s) by apply Hc.
        assert (Hr : 0 <= areaRadius (config s)).
        { rewrite Har in Hin. eapply labelAreas_hit_radius; eauto. }
        rewrite (toggleHighlight_returns true) by (simpl in Hsafe; auto).
        cbn [andThen].
        assert (Ha : areas (toggleHighlight (Area.name area) s) = areas s).
        { rewrite toggleHighlight_areas, Har.
          destruct (_ && _); reflexivity. }
        rewrite IH.
        -- rewrite Ha. reflexivity.
        -- apply toggleHighlight_consistent, Hc.
        -- rewrite Ha. lia.
        -- rewrite Ha. intros a Hia. apply Hsafe. simpl. auto.
      * cbn [andThen]. apply IH; [assumption | lia |].
        intros a Hia. apply Hsafe. simpl. auto.
    + apply nth_error_None in Hn. rewrite skipn_all2 by lia. reflexivity.
Qed.

Lemma Call_areaClicked_safe (loaded : bool) (e : MouseEvent) (s : Scheme) :
  consistent loaded s ->
  (forall a, In a (clickedAreas e s) -> selectorSafe (Area.name a) = true) ->
  Call.areaClicked e s
  = Returns (toggleAll (map Area.name (clickedAreas e s)) s).
Proof.
  intros Hc Hsafe. unfold Call.areaClicked, clickedAreas in *.
  destruct loaded.
  - rewrite Call_areaClicked_loop_safe; [reflexivity | assumption | lia |].
    simpl. intros a Hin Hhit. apply Hsafe, filter_In. auto.
  - destruct Hc as [Ha _]. rewrite Call_areaClicked_loop_miss.
    + rewrite Ha. reflexivity.
    + intros a Hin. rewrite Ha in Hin. destruct Hin.
Qed.

Lemma areaClicked_toggleAll (loaded : bool) (e : MouseEvent) (s : Scheme) :
  consistent loaded s ->
  (forall a, In a (clickedAreas e s) -> selectorSafe (Area.name a) = true) ->
  areaClicked e s = toggleAll (map Area.name (clickedAreas e s)) s.
Proof.
  intros Hc Hsafe. unfold areaClicked, areaClicked_loop.
  change (Call.areaClicked_loop
            (Nat.max (List.length (areas s)) (List.length (labels s)))
            e 0%nat s)
    with (Call.areaClicked e s).
  rewrite (Call_areaClicked_safe loaded) by assumption. reflexivity.
Qed.

Lemma areaClicked_loop_general (fuel : nat) (e : MouseEvent) :
  forall (i : nat) (s : Scheme),
    consistent true s ->
    (List.length (areas s) - i <= fuel)%nat ->
    areaClicked_loop fuel e i s
    = toggleUntilThrow
        (map Area.name
           (filter (coordsInArea (offsetX e) (offsetY e)) (skipn i (areas s))))
        s.
Proof.
  induction fuel as [|fuel IH]; intros i s Hc Hb.
  - rewrite skipn_all2 by lia. reflexivity.
  - rewrite areaClicked_loop_S.
    destruct (nth_error (areas s) i) as [area|] eqn:Hn.
    + rewrite (nth_error_skipn _ _ _ Hn). simpl.
      destruct (coordsInArea (offsetX e) (offsetY e) area); simpl.
      * destruct (threw (Call.toggleHighlight (Area.name area) s));
          [reflexivity|].
        assert (Ha : areas (toggleHighlight (Area.name area) s) = areas s).
        { rewrite toggleHighlight_areas. destruct Hc as [-> _].
          destruct (_ && _); reflexivity. }
        rewrite IH.
        -- rewrite Ha. reflexivity.
        -- apply toggleHighlight_consistent, Hc.
        -- rewrite Ha. lia.
      * apply IH; [assumption | lia].
    + apply nth_error_None in Hn. rewrite skipn_all2 by lia. reflexivity.
Qed.

Lemma areaClicked_general (loaded : bool) (e : MouseEvent) (s : Scheme) :
  consistent loaded s ->
  areaClicked e s = toggleUntilThrow (map Area.name (clickedAreas e s)) s.
Proof.
  intros Hc. unfold areaClicked, clickedAreas. destruct loaded.
  - rewrite areaClicked_loop_general by (auto; lia). reflexivity.
  - destruct Hc as [Ha _]. rewrite areaClicked_loop_miss.
    + rewrite Ha. reflexivity.
    + intros a Hin. rewrite Ha in Hin. destruct Hin.
Qed.

(** C5 on a name with a double quote in it: two areas, the first named
    [a"b], the second [c], lie on each other and the click is in both. The
    first toggle selects [a"b] and throws in [toggleItemHighlight], where
    [querySelectorAll] is handed the selector of the name; the loop of
    [areaClicked] ends there: no class is set, nothing is redrawn, and the
    second area's name is never toggled, where toggles of both names in turn
    select [c] as well. *)
Theorem areaClicked_quote_in_name :
  let quoted := "a" ++ String doubleQuote "b" in
  let s := dispatch ImageLoad
             (Scheme_new (Canvas.mk 300 150 "")
                         [mkListItem "" [mkSpan quoted];
                          mkListItem "" [mkSpan "c"]]
                         (Image.mk "sheme.png" 400 600)
                         [Label.mk quoted 158 165; Label.mk "c" 160 165]
                         None) in
  let e := mkMouseEvent 190 195 in
  reachable true s
  /\ map Area.name (clickedAreas e s) = [quoted; "c"]
  /\ threw (Call.areaClicked e s) = true
  /\ isSelected quoted (areaClicked e s) = true
  /\ isSelected "c" (areaClicked e s) = false
  /\ isSelected "c" (toggleAll [quoted; "c"] s) = true
  /\ listEl (areaClicked e s) = listEl s
  /\ ctx (areaClicked e s) = ctx s.
Proof.
  cbv zeta. split; [apply reach_load, reach_new|].
  repeat split; vm_compute; reflexivity.
Qed.



(** ** Class lists *)

Lemma split_not_nil (s : string) : utility.split s <> [].
Proof.
  induction s as [|c s IH]; simpl; [discriminate|].
  destruct (Ascii.eqb c " "); [discriminate|].
  destruct (utility.split s); discriminate.
Qed.

Lemma split_noSpace (s : string) :
  Forall (fun piece => noSpace piece = true) (utility.split s).
Proof.
  induction s as [|c s IH]; simpl.
  - constructor; [reflexivity | constructor].
  - destruct (Ascii.eqb c " ") eqn:E.
    + constructor; [reflexivity | assumption].
    + destruct (utility.split s) as [|piece pieces].
      * constructor; [simpl; rewrite E; reflexivity | constructor].
      * inversion IH; subst. constructor; [|assumption].
        simpl. rewrite E. assumption.
Qed.

Lemma split_piece (piece : string) :
  noSpace piece = true -> utility.split piece = [piece].
Proof.
  induction piece as [|c piece IH]; simpl; [reflexivity|].
  intros H. apply andb_true_iff in H. destruct H as [Hc Hp].
  apply negb_true_iff in Hc. rewrite Hc, (IH Hp). reflexivity.
Qed.

Lemma split_piece_space (piece rest : string) :
  noSpace piece = true ->
  utility.split (piece ++ String " "%char rest) = piece :: utility.split rest.
Proof.
  induction piece as [|c piece IH]; simpl; [reflexivity|].
  intros H. apply andb_true_iff in H. destruct H as [Hc Hp].
  apply negb_true_iff in Hc. rewrite Hc, (IH Hp). reflexivity.
Qed.

Lemma split_join (classes : list string) :
  classes <> [] ->
  Forall (fun piece => noSpace piece = true) classes ->
  utility.split (utility.join classes) = classes.
Proof.
  unfold utility.join.
  induction classes as [|c classes IH]; intros Hne Hall; [congruence|].
  inversion Hall as [|? ? Hc Hrest]; subst.
  destruct classes as [|c' classes].
  - simpl. apply split_piece, Hc.
  - change (String.concat " " (c :: c' :: classes))
      with (c ++ String " "%char (String.concat " " (c' :: classes))).
    rewrite split_piece_space by assumption.
    rewrite IH; [reflexivity | discriminate | assumption].
Qed.

Lemma absent_app (cls : string) (l1 l2 : list string) :
  utility.absent cls (l1 ++ l2)
  = utility.absent cls l1 && utility.absent cls l2.
Proof.
  unfold utility.absent. rewrite existsb_app, negb_orb. reflexivity.
Qed.

Lemma absent_splice_all (cls : string) (classes : list string) :
  utility.absent cls (utility.splice_all cls classes) = true.
Proof.
  unfold utility.absent.
  induction classes as [|c classes IH]; simpl; [reflexivity|].
  destruct (String.eqb c cls) eqn:E; [assumption|].
  simpl. rewrite String.eqb_sym, E. assumption.
Qed.

Lemma splice_all_noSpace (cls : string) (classes : list string) :
  Forall (fun piece => noSpace piece = true) classes ->
  Forall (fun piece => noSpace piece = true) (utility.splice_all cls classes).
Proof.
  induction 1 as [|c classes Hc Hrest IH]; simpl; [constructor|].
  destruct (String.eqb c cls); [assumption | constructor; assumption].
Qed.

Lemma hasClass_addClass (className cls : string) :
  noSpace cls = true ->
  utility.hasClass (utility.addClass className cls) cls = true.
Proof.
  intros Hcls. unfold utility.hasClass, utility.addClass.
  destruct (utility.absent cls (utility.split className)) eqn:E.
  - rewrite split_join.
    + rewrite absent_app. unfold utility.absent at 2. simpl.
      rewrite String.eqb_refl. simpl. rewrite andb_false_r. reflexivity.
    + destruct (utility.split className); discriminate.
    + apply Forall_app. split; [apply split_noSpace|].
      constructor; [assumption | constructor].
  - rewrite split_join by (apply split_not_nil || apply split_noSpace).
    rewrite E. reflexivity.
Qed.

Lemma hasClass_removeClass (className cls : string) :
  cls <> EmptyString ->
  utility.hasClass (utility.removeClass className cls) cls = false.
Proof.
  intros Hcls. unfold utility.hasClass, utility.removeClass.
  destruct (utility.splice_all cls (utility.split className)) eqn:E.
  - simpl. unfold utility.absent. simpl.
    destruct (String.eqb_spec cls EmptyString); [contradiction|reflexivity].
  - rewrite <- E. rewrite split_join.
    + rewrite absent_splice_all. reflexivity.
    + rewrite E. discriminate.
    + apply splice_all_noSpace, split_noSpace.
Qed.

(** ** The list items under a toggle *)

Lemma highlightParent_fold (partNumber : string)
    (func : string -> string -> string) (b : bool) :
  (forall c, utility.hasClass (func c "selected") "selected" = b) ->
  forall (spans : list Span) (item : ListItem),
    let item' :=
      fold_left
        (fun item span =>
           if String.eqb (data_part_number span) partNumber
           then mkListItem (func (className item) "selected") (children item)
           else item)
        spans item in
    children item' = children item
    /\ hasSelected item'
       = if existsb (fun span => String.eqb (data_part_number span) partNumber)
                    spans
         then b else hasSelected item.
Proof.
  intros Hf spans. induction spans as [|span spans IH]; intros item; simpl.
  - auto.
  - destruct (IH (if String.eqb (data_part_number span) partNumber
                  then mkListItem (func (className item) "selected")
                                  (children item)
                  else item)) as [Hc Hs].
    cbv zeta in Hc, Hs. rewrite Hc, Hs.
    destruct (String.eqb (data_part_number span) partNumber); simpl.
    + split; [reflexivity|]. unfold hasSelected at 1. simpl. rewrite Hf.
      destruct (existsb _ spans); reflexivity.
    + auto.
Qed.

Lemma highlightParent_addClass (partNumber : string) (li : ListItem) :
  children (highlightParent partNumber utility.addClass li) = children li
  /\ hasSelected (highlightParent partNumber utility.addClass li)
     = if holdsPartNumber partNumber li then true else hasSelected li.
Proof.
  apply (highlightParent_fold partNumber utility.addClass true).
  intros c. apply hasClass_addClass. reflexivity.
Qed.

Lemma highlightParent_removeClass (partNumber : string) (li : ListItem) :
  children (highlightParent partNumber utility.removeClass li) = children li
  /\ hasSelected (highlightParent partNumber utility.removeClass li)
     = if holdsPartNumber partNumber li then false else hasSelected li.
Proof.
  apply (highlightParent_fold partNumber utility.removeClass false).
  intros c. apply hasClass_removeClass. discriminate.
Qed.

(** ** Two toggles in a row *)

Lemma filter_named_not_named (name : string) (l : list Area.t) :
  filter (named name) (filter (fun a => negb (named name a)) l) = [].
Proof.
  induction l as [|a l IH]; simpl; [reflexivity|].
  destruct (named name a) eqn:E; simpl; [|rewrite E]; exact IH.
Qed.

Lemma filter_not_named_named (name : string) (l : list Area.t) :
  filter (fun a => negb (named name a)) (filter (named name) l) = [].
Proof.
  induction l as [|a l IH]; simpl; [reflexivity|].
  destruct (named name a) eqn:E; simpl; [rewrite E|]; exact IH.
Qed.

Lemma holdsPartNumber_children (partNumber : string) (li li' : ListItem) :
  children li' = children li ->
  holdsPartNumber partNumber li' = holdsPartNumber partNumber li.
Proof. unfold holdsPartNumber. intros ->. reflexivity. Qed.

Lemma findAllAreas_named (name : string) (s : Scheme) :
  filter (named name) (findAllAreas name s) = findAllAreas name s.
Proof. apply (filter_twice (named name)). Qed.

Lemma findAllAreas_not_named (name : string) (s : Scheme) :
  filter (fun a => negb (named name a)) (findAllAreas name s) = [].
Proof. apply filter_not_named_named. Qed.

Lemma findAllAreas_toggleHighlight
    (loaded : bool) (partNumber : string) (s : Scheme) :
  consistent loaded s ->
  findAllAreas partNumber (toggleHighlight partNumber s)
  = findAllAreas partNumber s.
Proof.
  intros Hc.
  pose proof (toggleHighlight_consistent _ partNumber _ Hc) as [Ha1 _].
  destruct Hc as [Ha _]. rewrite toggleHighlight_labelAreas in Ha1.
  unfold findAllAreas. rewrite Ha1, Ha. reflexivity.
Qed.

Lemma twice_membership (loaded : bool) (partNumber : string) (s : Scheme) :
  consistent loaded s ->
  forall a,
    In a (selectedAreas
            (toggleHighlight partNumber (toggleHighlight partNumber s)))
    <-> In a (selectedAreas s).
Proof.
  intros Hc.
  destruct (nonempty (findAllAreas partNumber s)) eqn:Hf.
  2:{ assert (E : toggleHighlight partNumber s = s)
        by (apply toggleHighlight_not_found, nonempty_false, Hf).
      rewrite !E. tauto. }
  rewrite (toggleHighlight_selectedAreas partNumber (toggleHighlight _ _)).
  rewrite (findAllAreas_toggleHighlight loaded) by assumption.
  rewrite Hf, toggleHighlight_selectedAreas, Hf.
  destruct Hc as [Ha [Hi Hs]].
  assert (Hl : loaded = true).
  { destruct loaded; [reflexivity|].
    unfold findAllAreas in Hf. rewrite Ha in Hf. discriminate. }
  subst loaded.
  fold (isSelected partNumber s).
  destruct (isSelected partNumber s) eqn:Hsel.
  - rewrite filter_named_not_named. simpl.
    intros a. rewrite in_app_iff, filter_In. unfold findAllAreas.
    rewrite filter_In. fold (named partNumber a). split.
    + intros [[Hin _]|[Hin Hn]]; [assumption|].
      destruct (Hs partNumber) as [Hall|Hnone].
      * apply Hall; [rewrite <- Ha; assumption | apply named_true, Hn].
      * apply filter_named_nil in Hnone. unfold isSelected in Hsel.
        rewrite Hnone in Hsel. discriminate.
    + intros Hin. destruct (named partNumber a) eqn:E.
      * right. split; [rewrite Ha; auto | reflexivity].
      * left. auto.
  - unfold isSelected in Hsel. apply nonempty_false in Hsel.
    rewrite filter_app, Hsel. simpl.
    rewrite findAllAreas_named, Hf.
    rewrite filter_app, (filter_none_negb _ _ Hsel).
    rewrite findAllAreas_not_named, app_nil_r. tauto.
Qed.

Lemma twice_flags (loaded : bool) (partNumber : string) (s : Scheme) :
  consistent loaded s ->
  selectorSafe partNumber = true ->
  listInSync partNumber s ->
  selectedFlags (toggleHighlight partNumber (toggleHighlight partNumber s))
  = selectedFlags s.
Proof.
  intros Hc Hsafe Hsync.
  destruct (nonempty (findAllAreas partNumber s)) eqn:Hf.
  2:{ assert (E : toggleHighlight partNumber s = s)
        by (apply toggleHighlight_not_found, nonempty_false, Hf).
      rewrite !E. reflexivity. }
  unfold selectedFlags.
  rewrite (toggleHighlight_listEl_safe partNumber (toggleHighlight _ _))
    by assumption.
  rewrite (findAllAreas_toggleHighlight loaded) by assumption.
  rewrite Hf, toggleHighlight_selectedAreas, toggleHighlight_listEl_safe, Hf
    by assumption.
  fold (isSelected partNumber s).
  destruct (isSelected partNumber s) eqn:Hsel.
  - rewrite filter_named_not_named. simpl.
    rewrite !map_map. apply map_ext_in. intros li Hli.
    destruct (highlightParent_removeClass partNumber li) as [Hch Hfl].
    destruct (highlightParent_addClass partNumber
                (highlightParent partNumber utility.removeClass li))
      as [_ Hfl'].
    rewrite Hfl', (holdsPartNumber_children _ _ _ Hch), Hfl.
    destruct (holdsPartNumber partNumber li) eqn:Hh; [|reflexivity].
    rewrite (Hsync li Hli Hh), Hsel. reflexivity.
  - unfold isSelected in Hsel. apply nonempty_false in Hsel.
    rewrite filter_app, Hsel. simpl.
    rewrite findAllAreas_named, Hf.
    rewrite !map_map. apply map_ext_in. intros li Hli.
    destruct (highlightParent_addClass partNumber li) as [Hch Hfl].
    destruct (highlightParent_removeClass partNumber
                (highlightParent partNumber utility.addClass li))
      as [_ Hfl'].
    rewrite Hfl', (holdsPartNumber_children _ _ _ Hch), Hfl.
    destruct (holdsPartNumber partNumber li) eqn:Hh; [|reflexivity].
    rewrite (Hsync li Hli Hh). unfold isSelected. rewrite Hsel. reflexivity.
Qed.

Lemma twice_restores_consistent
    (loaded : bool) (partNumber : string) (s : Scheme) :
  consistent loaded s ->
  selectorSafe partNumber = true ->
  listInSync partNumber s ->
  toggleTwiceRestores partNumber s.
Proof.
  intros Hc Hsafe Hsync. split.
  - apply (twice_membership loaded), Hc.
  - apply (twice_flags loaded); assumption.
Qed.

(** C2, as the code has it: in every state of a widget two toggles of a
    name in a row bring back the membership of the selected areas; for a
    part number made of selector characters they bring back the [selected]
    class of every list item when the list items of the part number bear
    [selected] exactly when the name is selected. *)
Theorem toggleHighlight_twice
    (loaded : bool) (partNumber : string) (s : Scheme) :
  reachable loaded s ->
  (forall a,
      In a (selectedAreas
              (toggleHighlight partNumber (toggleHighlight partNumber s)))
      <-> In a (selectedAreas s))
  /\ (selectorSafe partNumber = true ->
      listInSync partNumber s ->
      selectedFlags (toggleHighlight partNumber (toggleHighlight partNumber s))
      = selectedFlags s).
Proof.
  intros Hr. pose proof (reachable_consistent _ _ Hr) as Hc. split.
  - apply (twice_membership loaded), Hc.
  - apply (twice_flags loaded), Hc.
Qed.

Lemma toggleHighlight_twice_witness :
  toggleTwiceRestores "1"
    (dispatch ImageLoad
       (Scheme_new (Canvas.mk 300 150 "")
                   [mkListItem "" [mkSpan "1"]; mkListItem "x" [mkSpan "2"]]
                   (Image.mk "sheme.png" 400 600)
                   [Label.mk "1" 158 165; Label.mk "1" 49 540] None)).
Proof.
  destruct (toggleHighlight_twice true "1"
              (dispatch ImageLoad
                 (Scheme_new (Canvas.mk 300 150 "")
                    [mkListItem "" [mkSpan "1"]; mkListItem "x" [mkSpan "2"]]
                    (Image.mk "sheme.png" 400 600)
                    [Label.mk "1" 158 165; Label.mk "1" 49 540] None)))
    as [Hm Hf].
  - apply reach_load, reach_new.
  - split; [exact Hm|]. apply Hf; [reflexivity|].
    intros li [<-|[<-|[]]]; vm_compute; congruence.
Defined.

(** C2, as stated, fails: a list item that comes with the class [selected]
    while its part number is not selected keeps the class on the first
    toggle and loses it on the second. *)
Lemma toggleHighlight_twice_counterexample :
  ~ toggleTwiceRestores "1"
      (dispatch ImageLoad
         (Scheme_new (Canvas.mk 300 150 "")
                     [mkListItem "selected" [mkSpan "1"]]
                     (Image.mk "sheme.png" 400 600)
                     [Label.mk "1" 158 165] None)).
Proof.
  intros [_ H]. vm_compute in H. discriminate.
Qed.

(** The part number of C2 has to be made of selector characters. A label
    named [\31 ] gives the selector [[data-part-number="\31 "]], in which
    [\31 ] is the escape of the character [1]: a list element that parses
    it matches the item of part number [1]. No list item has the part
    number [\31 ], so the list is in sync with it, and two toggles take the
    class [selected] that the item came with. *)
Lemma toggleHighlight_twice_escaped_name :
  let name := String (ascii_of_nat 92) "31 " in
  let query := fun (partNumber : string) (items : list ListItem) =>
                 if String.eqb partNumber name then Matched [0%nat]
                 else SyntaxError in
  let s := dispatch ImageLoad
             (set_listQuery query
                (Scheme_new (Canvas.mk 300 150 "")
                            [mkListItem "selected" [mkSpan "1"]]
                            (Image.mk "sheme.png" 400 600)
                            [Label.mk name 158 165] None)) in
  reachable true s
  /\ selectorSafe name = false
  /\ listInSync name s
  /\ selectedFlags s = [true]
  /\ selectedFlags (toggleHighlight name (toggleHighlight name s)) = [false].
Proof.
  cbv zeta. split; [apply reach_load, reach_list|].
  split; [reflexivity|]. split; [|split; vm_compute; reflexivity].
  intros li [<-|[]] Hh. vm_compute in Hh. discriminate.
Qed.

(** ** The [scale] option *)

Lemma drawScheme_scale (v : Z) (s : Scheme) :
  drawScheme (scheme_with_scale v s) = scheme_with_scale v (drawScheme s).
Proof. rewrite !drawScheme_eq. reflexivity. Qed.

Lemma redrawScheme_scale (v : Z) (s : Scheme) :
  redrawScheme (scheme_with_scale v s) = scheme_with_scale v (redrawScheme s).
Proof. rewrite !redrawScheme_eq. reflexivity. Qed.

Lemma toggleHighlight_scale (v : Z) (partNumber : string) (s : Scheme) :
  toggleHighlight partNumber (scheme_with_scale v s)
  = scheme_with_scale v (toggleHighlight partNumber s).
Proof.
  rewrite !toggleHighlight_eq.
  change (findAllAreas partNumber (scheme_with_scale v s))
    with (findAllAreas partNumber s).
  change (selectedAreas (scheme_with_scale v s)) with (selectedAreas s).
  destruct (nonempty (findAllAreas partNumber s)); [|reflexivity].
  destruct (nonempty (filter (named partNumber) (selectedAreas s)));
    rewrite !classesAndRedraw_state;
    cbn [listQuery listEl scheme_with_scale set_config set_selectedAreas];
    match goal with
    | |- context [itemsAfter ?n ?f ?q ?l] => destruct (itemsAfter n f q l)
    end;
    try rewrite <- redrawScheme_scale; reflexivity.
Qed.

Lemma toggleHighlight_threw_scale (v : Z) (partNumber : string) (s : Scheme) :
  threw (Call.toggleHighlight partNumber (scheme_with_scale v s))
  = threw (Call.toggleHighlight partNumber s).
Proof.
  rewrite !toggleHighlight_threw, toggleHighlight_scale. reflexivity.
Qed.

Lemma areaClicked_loop_scale (v : Z) (fuel : nat) (e : MouseEvent) :
  forall (i : nat) (s : Scheme),
    areaClicked_loop fuel e i (scheme_with_scale v s)
    = scheme_with_scale v (areaClicked_loop fuel e i s).
Proof.
  induction fuel as [|fuel IH]; intros i s; [reflexivity|].
  rewrite !areaClicked_loop_S.
  change (areas (scheme_with_scale v s)) with (areas s).
  destruct (nth_error (areas s) i) as [area|]; [|reflexivity].
  destruct (coordsInArea (offsetX e) (offsetY e) area).
  - rewrite toggleHighlight_threw_scale, toggleHighlight_scale.
    destruct (threw (Call.toggleHighlight (Area.name area) s));
      [reflexivity | apply IH].
  - apply IH.
Qed.

Lemma areaHovered_scale (v : Z) (e : MouseEvent) (s : Scheme) :
  areaHovered e (scheme_with_scale v s)
  = scheme_with_scale v (areaHovered e s).
Proof.
  unfold areaHovered. simpl. destruct (hoveredArea s) as [hovered|].
  - destruct (coordsInArea (offsetX e) (offsetY e) hovered); reflexivity.
  - destruct (areaHovered_scan e (areas s)); reflexivity.
Qed.

Lemma dispatch_scale (v : Z) (ev : Event) (s : Scheme) :
  dispatch ev (scheme_with_scale v s) = scheme_with_scale v (dispatch ev s).
Proof.
  destruct ev as [|e|e|this]; simpl.
  - apply drawScheme_scale.
  - apply areaClicked_loop_scale.
  - apply areaHovered_scale.
  - apply toggleHighlight_scale.
Qed.

Lemma run_scale (v : Z) (evs : list Event) :
  forall s : Scheme,
    run evs (scheme_with_scale v s) = scheme_with_scale v (run evs s).
Proof.
  unfold run. induction evs as [|ev evs IH]; intros s; simpl; [reflexivity|].
  rewrite dispatch_scale. apply IH.
Qed.

Lemma assignParam_with_scale (v : Z) (c : Config) (p : Param) :
  with_scale v (assignParam c p) = with_scale v (assignParam (with_scale v c) p).
Proof. destruct p; reflexivity. Qed.

Lemma setConfig_fold_with_scale (v : Z) (ps : list Param) :
  forall c1 c2 : Config,
    with_scale v c1 = with_scale v c2 ->
    with_scale v (fold_left assignParam ps c1)
    = with_scale v (fold_left assignParam ps c2).
Proof.
  induction ps as [|p ps IH]; intros c1 c2 H; simpl; [exact H|].
  apply IH.
  rewrite (assignParam_with_scale v c1), (assignParam_with_scale v c2), H.
  reflexivity.
Qed.

Lemma observe_scale (v : Z) (s : Scheme) :
  observe (scheme_with_scale v s) = observe s.
Proof. reflexivity. Qed.

(** C10: the events commute with a change of [scale], so two widgets whose
    configurations differ in [scale] only show the same canvas size, list,
    drawing log, areas, selection and hover state after the same events;
    [setConfig] stores the value all the same. *)
Theorem scale_never_read :
  (forall (evs : list Event) (s : Scheme) (v : Z),
      run evs (scheme_with_scale v s) = scheme_with_scale v (run evs s))
  /\ (forall (evs : list Event) (s : Scheme) (c : Config) (v1 v2 : Z),
         observe (run evs (set_config (with_scale v1 c) s))
         = observe (run evs (set_config (with_scale v2 c) s)))
  /\ (forall (evs : list Event) (canvasEl : Canvas.t)
             (listItems : list ListItem) (img : Image.t)
             (labelsJSON : list Label.t) (ps1 ps2 : list Param) (v1 v2 : Z),
         observe (run evs (Scheme_new canvasEl listItems img labelsJSON
                             (Some (ps1 ++ p_scale v1 :: ps2)%list)))
         = observe (run evs (Scheme_new canvasEl listItems img labelsJSON
                               (Some (ps1 ++ p_scale v2 :: ps2)%list))))
  /\ (forall (s : Scheme) (v : Z),
         scale (config (setConfig [p_scale v] s)) = v).
Proof.
  split; [|split; [|split]].
  - intros evs s v. apply run_scale.
  - intros evs s c v1 v2.
    change (set_config (with_scale v1 c) s)
      with (scheme_with_scale v1 (set_config (with_scale v2 c) s)).
    rewrite run_scale. apply observe_scale.
  - intros evs canvasEl listItems img labelsJSON ps1 ps2 v1 v2.
    unfold Scheme_new, setConfig. cbn [config].
    set (c1 := fold_left assignParam (ps1 ++ p_scale v1 :: ps2)%list
                         defaultConfig).
    set (c2 := fold_left assignParam (ps1 ++ p_scale v2 :: ps2)%list
                         defaultConfig).
    assert (Hc : with_scale 0 c1 = with_scale 0 c2).
    { subst c1 c2. rewrite !fold_left_app. simpl.
      apply setConfig_fold_with_scale. reflexivity. }
    match goal with
    | |- observe (run evs (set_config c1 ?s0)) = _ => set (s := s0)
    end.
    transitivity (observe (scheme_with_scale 0 (run evs (set_config c1 s)))).
    + symmetry. apply observe_scale.
    + rewrite <- run_scale.
      change (scheme_with_scale 0 (set_config c1 s))
        with (set_config (with_scale 0 c1) s).
      rewrite Hc.
      change (set_config (with_scale 0 c2) s)
        with (scheme_with_scale 0 (set_config c2 s)).
      rewrite run_scale. apply observe_scale.
  - intros s v. reflexivity.
Qed.


(** ** More on the class helpers *)

Lemma concat_String (sep : string) (c : ascii) (piece : string)
    (pieces : list string) :
  String.concat sep (String c piece :: pieces)
  = String c (String.concat sep (piece :: pieces)).
Proof. destruct pieces; reflexivity. Qed.

Lemma join_split (s : string) : utility.join (utility.split s) = s.
Proof.
  unfold utility.join. induction s as [|c s IH]; simpl; [reflexivity|].
  destruct (Ascii.eqb_spec c " "%char) as [->|Hc].
  - pose proof (split_not_nil s) as Hn.
    destruct (utility.split s) as [|piece pieces]; [congruence|].
    change (String.concat " " (EmptyString :: piece :: pieces))
      with (String " "%char (String.concat " " (piece :: pieces))).
    rewrite IH. reflexivity.
  - pose proof (split_not_nil s) as Hn.
    destruct (utility.split s) as [|piece pieces]; [congruence|].
    rewrite concat_String, IH. reflexivity.
Qed.

Lemma splice_all_absent (cls : string) (classes : list string) :
  utility.absent cls classes = true -> utility.splice_all cls classes = classes.
Proof.
  unfold utility.absent.
  induction classes as [|c classes IH]; simpl; [reflexivity|].
  rewrite negb_orb, andb_true_iff. intros [Hc Hrest].
  apply negb_true_iff in Hc. rewrite String.eqb_sym, Hc, IH; auto.
Qed.

Lemma splice_all_app (cls : string) (l1 l2 : list string) :
  utility.splice_all cls (l1 ++ l2)
  = (utility.splice_all cls l1 ++ utility.splice_all cls l2)%list.
Proof.
  induction l1 as [|c l1 IH]; simpl; [reflexivity|].
  destruct (String.eqb c cls); simpl; rewrite IH; reflexivity.
Qed.

Lemma existsb_splice_all (cls other : string) (classes : list string) :
  other <> cls ->
  existsb (String.eqb other) (utility.splice_all cls classes)
  = existsb (String.eqb other) classes.
Proof.
  intros Hne. induction classes as [|c classes IH]; simpl; [reflexivity|].
  destruct (String.eqb_spec c cls) as [->|Hc]; simpl; rewrite IH.
  - destruct (String.eqb_spec other cls); [contradiction | reflexivity].
  - reflexivity.
Qed.

Lemma split_addClass (className cls : string) :
  noSpace cls = true ->
  utility.split (utility.addClass className cls)
  = if utility.absent cls (utility.split className)
    then (utility.split className ++ [cls])%list
    else utility.split className.
Proof.
  intros Hcls. unfold utility.addClass.
  destruct (utility.absent cls (utility.split className)).
  - apply split_join.
    + destruct (utility.split className); discriminate.
    + apply Forall_app. split; [apply split_noSpace|].
      constructor; [assumption | constructor].
  - apply split_join; [apply split_not_nil | apply split_noSpace].
Qed.

Lemma hasClass_addClass_other (className cls other : string) :
  noSpace cls = true ->
  utility.hasClass (utility.addClass className cls) other
  = utility.hasClass className other || String.eqb other cls.
Proof.
  intros Hcls. unfold utility.hasClass.
  rewrite split_addClass by assumption.
  destruct (utility.absent cls (utility.split className)) eqn:E.
  - unfold utility.absent. rewrite existsb_app, !negb_involutive. simpl.
    rewrite orb_false_r. reflexivity.
  - destruct (String.eqb_spec other cls) as [->|Hne].
    + rewrite E. reflexivity.
    + rewrite orb_false_r. reflexivity.
Qed.

Lemma removeClass_parts (className cls other : string) :
  cls <> EmptyString ->
  utility.hasClass (utility.removeClass className cls) cls = false
  /\ (other <> cls -> other <> EmptyString ->
      utility.hasClass (utility.removeClass className cls) other
      = utility.hasClass className other).
Proof.
  intros Hcls. split; [apply hasClass_removeClass, Hcls|].
  intros Hne Hother. unfold utility.hasClass, utility.removeClass.
  f_equal. unfold utility.absent. f_equal.
  rewrite <- (existsb_splice_all cls other (utility.split className) Hne).
  destruct (utility.splice_all cls (utility.split className)) eqn:E.
  - simpl. destruct (String.eqb_spec other EmptyString);
      [contradiction | reflexivity].
  - rewrite split_join; [reflexivity | discriminate |].
    rewrite <- E. apply splice_all_noSpace, split_noSpace.
Qed.

(** [addClass] with a class name that has no space in it: a class that is
    there already leaves [className] as it is, so adding twice is adding
    once; the class is there afterwards and every other class is there
    exactly when it was before. *)
Theorem addClass_idempotent (className cls : string) :
  noSpace cls = true ->
  (utility.hasClass className cls = true ->
   utility.addClass className cls = className)
  /\ utility.addClass (utility.addClass className cls) cls
     = utility.addClass className cls
  /\ (forall other : string,
         utility.hasClass (utility.addClass className cls) other
         = utility.hasClass className other || String.eqb other cls).
Proof.
  intros Hcls. split; [|split].
  - unfold utility.hasClass, utility.addClass. intros H.
    apply negb_true_iff in H. rewrite H. apply join_split.
  - unfold utility.addClass at 1. rewrite split_addClass by assumption.
    unfold utility.addClass.
    destruct (utility.absent cls (utility.split className)) eqn:E.
    + rewrite absent_app. unfold utility.absent at 2. simpl.
      rewrite String.eqb_refl. simpl. rewrite andb_false_r. reflexivity.
    + rewrite E. reflexivity.
  - intros other. unfold utility.hasClass.
    rewrite split_addClass by assumption.
    destruct (utility.absent cls (utility.split className)) eqn:E.
    + unfold utility.absent. rewrite existsb_app, !negb_involutive. simpl.
      rewrite orb_false_r. reflexivity.
    + destruct (String.eqb_spec other cls) as [->|Hne].
      * rewrite E. reflexivity.
      * rewrite orb_false_r. reflexivity.
Qed.

Lemma addClass_idempotent_witness :
  utility.addClass (utility.addClass "part" "selected") "selected"
  = utility.addClass "part" "selected"
  /\ utility.addClass "part selected" "selected" = "part selected".
Proof.
  split.
  - exact (proj1 (proj2 (addClass_idempotent "part" "selected" eq_refl))).
  - exact (proj1 (addClass_idempotent "part selected" "selected" eq_refl)
             eq_refl).
Defined.

(** [removeClass] of a class name that is not the empty string: the class
    is gone afterwards, however often it occurred; every other class that is
    not the empty string is there exactly when it was before; and when the
    class was not there [className] comes back as it is. *)
Theorem removeClass_removes_all (className cls : string) :
  cls <> EmptyString ->
  utility.hasClass (utility.removeClass className cls) cls = false
  /\ (forall other : string,
         other <> cls -> other <> EmptyString ->
         utility.hasClass (utility.removeClass className cls) other
         = utility.hasClass className other)
  /\ (utility.hasClass className cls = false ->
      utility.removeClass className cls = className).
Proof.
  intros Hcls. split; [|split].
  - apply hasClass_removeClass, Hcls.
  - intros other Hne Hother. unfold utility.hasClass, utility.removeClass.
    f_equal. unfold utility.absent. f_equal.
    rewrite <- (existsb_splice_all cls other (utility.split className) Hne).
    destruct (utility.splice_all cls (utility.split className)) eqn:E.
    + simpl. destruct (String.eqb_spec other EmptyString);
        [contradiction | reflexivity].
    + rewrite split_join; [reflexivity | discriminate |].
      rewrite <- E. apply splice_all_noSpace, split_noSpace.
  - unfold utility.hasClass, utility.removeClass. intros H.
    apply negb_false_iff in H. rewrite splice_all_absent by assumption.
    apply join_split.
Qed.

Lemma removeClass_removes_all_witness :
  utility.hasClass (utility.removeClass "selected part selected" "selected")
                   "selected" = false
  /\ utility.hasClass (utility.removeClass "selected part selected" "selected")
                      "part" = true.
Proof.
  destruct (removeClass_removes_all "selected part selected" "selected")
    as [H1 [H2 _]]; [discriminate|].
  split; [exact H1|].
  rewrite (H2 "part"); [reflexivity | discriminate | discriminate].
Defined.

(** Adding a class that is not there and removing it again gives back the
    very [className], the empty one included. *)
Theorem removeClass_addClass (className cls : string) :
  noSpace cls = true ->
  utility.hasClass className cls = false ->
  utility.removeClass (utility.addClass className cls) cls = className.
Proof.
  intros Hcls H. unfold utility.hasClass in H. apply negb_false_iff in H.
  unfold utility.removeClass. rewrite split_addClass, H by assumption.
  rewrite splice_all_app, splice_all_absent by assumption. simpl.
  rewrite String.eqb_refl, app_nil_r. apply join_split.
Qed.

Lemma removeClass_addClass_witness :
  utility.removeClass (utility.addClass "" "selected") "selected" = ""
  /\ utility.removeClass (utility.addClass "a  b" "pointer") "pointer" = "a  b".
Proof.
  split.
  - exact (removeClass_addClass "" "selected" eq_refl eq_refl).
  - exact (removeClass_addClass "a  b" "pointer" eq_refl eq_refl).
Defined.

(** [toggleClass] of a class name without a space that is not the empty
    string flips whether the element has the class. *)
Theorem toggleClass_flips (className cls : string) :
  noSpace cls = true ->
  cls <> EmptyString ->
  utility.hasClass (utility.toggleClass className cls) cls
  = negb (utility.hasClass className cls).
Proof.
  intros Hs Hne. unfold utility.toggleClass.
  unfold utility.hasClass at 2.
  destruct (utility.absent cls (utility.split className)); simpl.
  - apply hasClass_addClass, Hs.
  - apply hasClass_removeClass, Hne.
Qed.

Lemma toggleClass_flips_witness :
  utility.hasClass (utility.toggleClass "part" "selected") "selected" = true
  /\ utility.hasClass (utility.toggleClass "part selected" "selected")
                      "selected" = false.
Proof.
  split.
  - refine (toggleClass_flips "part" "selected" _ _);
      [reflexivity | discriminate].
  - refine (toggleClass_flips "part selected" "selected" _ _);
      [reflexivity | discriminate].
Defined.

(** ** More on hit testing *)

(** The box of an area made by the constructor holds the points whose
    distance from the center is at most the radius on both axes; with a
    negative radius it holds no point, with radius zero the center only. *)
Theorem coordsInArea_new (name : string) (cx cy r x y : Z) :
  (coordsInArea x y (Area.new name cx cy r) = true
   <-> Z.abs (x - cx) <= r /\ Z.abs (y - cy) <= r)
  /\ (r < 0 -> coordsInArea x y (Area.new name cx cy r) = false)
  /\ (r = 0 ->
      (coordsInArea x y (Area.new name cx cy r) = true <-> x = cx /\ y = cy)).
Proof.
  assert (H : coordsInArea x y (Area.new name cx cy r) = true
              <-> Z.abs (x - cx) <= r /\ Z.abs (y - cy) <= r).
  { rewrite coordsInArea_spec. simpl. lia. }
  split; [exact H|]. split.
  - intros Hr. destruct (coordsInArea x y (Area.new name cx cy r));
      [|reflexivity].
    assert (Z.abs (x - cx) <= r /\ Z.abs (y - cy) <= r)
      by (apply H; reflexivity).
    lia.
  - intros Hr. rewrite H. lia.
Qed.

Lemma coordsInArea_new_witness :
  coordsInArea 188 195 (Area.new "1" 188 195 (-1)) = false
  /\ (coordsInArea 188 195 (Area.new "1" 188 195 0) = true
      <-> 188 = 188 /\ 195 = 195).
Proof.
  split.
  - refine (proj1 (proj2 (coordsInArea_new "1" 188 195 (-1) 188 195)) _).
    reflexivity.
  - refine (proj2 (proj2 (coordsInArea_new "1" 188 195 0 188 195)) _).
    reflexivity.
Defined.

(** ** More on the selection *)

(** [removeSelectedAreas] returns the selected areas that bear the name, in
    their order, and leaves the other selected areas, in their order, and
    everything else as it is; called again it removes nothing. *)
Theorem removeSelectedAreas_partition (name : string) (s : Scheme) :
  fst (removeSelectedAreas name s) = filter (named name) (selectedAreas s)
  /\ snd (removeSelectedAreas name s)
     = set_selectedAreas
         (filter (fun a => negb (named name a)) (selectedAreas s)) s
  /\ (List.length (fst (removeSelectedAreas name s))
      + List.length (selectedAreas (snd (removeSelectedAreas name s)))
      = List.length (selectedAreas s))%nat
  /\ removeSelectedAreas name (snd (removeSelectedAreas name s))
     = ([], snd (removeSelectedAreas name s)).
Proof.
  unfold removeSelectedAreas. rewrite removeSelectedAreas_loop_eq. simpl.
  split; [reflexivity|]. split; [reflexivity|]. split.
  - induction (selectedAreas s) as [|a l IH]; simpl; [reflexivity|].
    destruct (named name a); simpl; lia.
  - rewrite removeSelectedAreas_loop_eq, filter_named_not_named.
    rewrite filter_none_negb by apply filter_named_not_named.
    reflexivity.
Qed.

Lemma findAllAreas_all_named (name : string) (s : Scheme) :
  forall a, In a (findAllAreas name s) -> named name a = true.
Proof.
  intros a Hin. unfold findAllAreas in Hin. apply filter_In in Hin.
  apply Hin.
Qed.

Lemma filter_named_other (name other : string) (l : list Area.t) :
  other <> name ->
  filter (named other) (filter (fun a => negb (named name a)) l)
  = filter (named other) l.
Proof.
  intros Hne. induction l as [|a l IH]; simpl; [reflexivity|].
  destruct (named name a) eqn:E; simpl.
  - destruct (named other a) eqn:E'; [|exact IH].
    apply named_true in E. apply named_true in E'. congruence.
  - rewrite IH. reflexivity.
Qed.

Lemma filter_named_findAllAreas_other (name other : string) (s : Scheme) :
  other <> name -> filter (named other) (findAllAreas name s) = [].
Proof.
  intros Hne. apply filter_named_nil. intros a Hin.
  apply findAllAreas_all_named, named_true in Hin. congruence.
Qed.

(** In any state, a toggle of a name that has areas flips whether the
    name is selected. *)
Theorem toggleHighlight_flips (partNumber : string) (s : Scheme) :
  findAllAreas partNumber s <> [] ->
  isSelected partNumber (toggleHighlight partNumber s)
  = negb (isSelected partNumber s).
Proof.
  intros Hf. unfold isSelected. rewrite toggleHighlight_selectedAreas.
  assert (Hne : nonempty (findAllAreas partNumber s) = true)
    by (destruct (findAllAreas partNumber s); [congruence | reflexivity]).
  rewrite Hne.
  destruct (nonempty (filter (named partNumber) (selectedAreas s))) eqn:Hr.
  - rewrite filter_named_not_named. reflexivity.
  - apply nonempty_false in Hr.
    rewrite filter_app, Hr, findAllAreas_named. simpl. exact Hne.
Qed.

Lemma toggleHighlight_flips_witness :
  let s := drawScheme
             (Scheme_new (Canvas.mk 300 150 "") [mkListItem "" [mkSpan "1"]]
                         (Image.mk "sheme.png" 400 600)
                         [Label.mk "1" 158 165; Label.mk "1" 49 540] None) in
  isSelected "1" (toggleHighlight "1" s) = true
  /\ isSelected "1" (toggleHighlight "1" (toggleHighlight "1" s)) = false.
Proof.
  intros s. split.
  - refine (toggleHighlight_flips "1" s _). vm_compute. discriminate.
  - refine (toggleHighlight_flips "1" (toggleHighlight "1" s) _).
    vm_compute. discriminate.
Defined.

Lemma toggleHighlight_filter_other (partNumber other : string) (s : Scheme) :
  other <> partNumber ->
  filter (named other) (selectedAreas (toggleHighlight partNumber s))
  = filter (named other) (selectedAreas s).
Proof.
  intros Hne. rewrite toggleHighlight_selectedAreas.
  destruct (nonempty (findAllAreas partNumber s)); [|reflexivity].
  destruct (nonempty (filter (named partNumber) (selectedAreas s))).
  - apply filter_named_other, Hne.
  - rewrite filter_app, filter_named_findAllAreas_other by assumption.
    apply app_nil_r.
Qed.

(** In any state, a toggle of one name leaves the selected areas of every
    other name as they are, in their order. *)
Theorem toggleHighlight_other_names (partNumber other : string) (s : Scheme) :
  other <> partNumber ->
  filter (named other) (selectedAreas (toggleHighlight partNumber s))
  = filter (named other) (selectedAreas s)
  /\ isSelected other (toggleHighlight partNumber s) = isSelected other s.
Proof.
  intros Hne.
  pose proof (toggleHighlight_filter_other partNumber other s Hne) as H.
  split; [exact H|]. unfold isSelected. rewrite H. reflexivity.
Qed.

Lemma toggleHighlight_other_names_witness :
  let s := toggleHighlight "2"
             (drawScheme
                (Scheme_new (Canvas.mk 300 150 "") []
                            (Image.mk "sheme.png" 400 600)
                            [Label.mk "1" 158 165; Label.mk "2" 49 540] None)) in
  isSelected "2" (toggleHighlight "1" s) = true.
Proof.
  intros s.
  refine (eq_trans (proj2 (toggleHighlight_other_names "1" "2" s _)) _).
  - discriminate.
  - reflexivity.
Defined.

(** ** The list under a toggle *)

Lemma highlightParent_not_holding (partNumber : string)
    (func : string -> string -> string) (li : ListItem) :
  holdsPartNumber partNumber li = false ->
  highlightParent partNumber func li = li.
Proof.
  unfold holdsPartNumber, highlightParent.
  generalize (children li) as spans. intros spans. revert li.
  induction spans as [|span spans IH]; intros li; simpl; [reflexivity|].
  intros H. apply orb_false_iff in H. destruct H as [Hs Hrest].
  rewrite Hs. apply IH, Hrest.
Qed.

Lemma highlightParent_flag (partNumber : string) (remove : bool)
    (li : ListItem) :
  let func := if remove then utility.removeClass else utility.addClass in
  children (highlightParent partNumber func li) = children li
  /\ hasSelected (highlightParent partNumber func li)
     = if holdsPartNumber partNumber li then negb remove else hasSelected li.
Proof.
  destruct remove; simpl.
  - apply highlightParent_removeClass.
  - apply highlightParent_addClass.
Qed.

(** In any state, after a toggle of a name of selector characters that
    has areas the list items with a child of that part number bear
    [selected] exactly when the name is now selected, whatever class they
    had; a list item without such a child is left as it is, and no item is
    added or dropped. *)
Theorem toggleHighlight_list_items (partNumber : string) (s : Scheme) :
  selectorSafe partNumber = true ->
  findAllAreas partNumber s <> [] ->
  listInSync partNumber (toggleHighlight partNumber s)
  /\ List.length (listEl (toggleHighlight partNumber s))
     = List.length (listEl s)
  /\ (forall (i : nat) (li : ListItem),
         nth_error (listEl s) i = Some li ->
         exists li',
           nth_error (listEl (toggleHighlight partNumber s)) i = Some li'
           /\ children li' = children li
           /\ (holdsPartNumber partNumber li = false -> li' = li)).
Proof.
  intros Hsafe Hf.
  assert (Hne : nonempty (findAllAreas partNumber s) = true)
    by (destruct (findAllAreas partNumber s); [congruence | reflexivity]).
  assert (Hsel : isSelected partNumber (toggleHighlight partNumber s)
                 = negb (isSelected partNumber s)).
  { unfold isSelected. rewrite toggleHighlight_selectedAreas, Hne.
    destruct (nonempty (filter (named partNumber) (selectedAreas s))) eqn:Hr.
    - rewrite filter_named_not_named. reflexivity.
    - apply nonempty_false in Hr.
      rewrite filter_app, Hr, findAllAreas_named. simpl. exact Hne. }
  unfold listInSync.
  rewrite Hsel, toggleHighlight_listEl_safe, Hne by assumption.
  fold (isSelected partNumber s).
  split; [|split].
  - intros li' Hin Hh. apply in_map_iff in Hin. destruct Hin as [li [<- Hin]].
    destruct (highlightParent_flag partNumber (isSelected partNumber s) li)
      as [Hc Hfl].
    cbv zeta in Hc, Hfl. rewrite Hfl.
    rewrite (holdsPartNumber_children _ _ _ Hc) in Hh. rewrite Hh.
    reflexivity.
  - apply length_map.
  - intros i li Hi. eexists. split; [|split].
    + rewrite nth_error_map, Hi. reflexivity.
    + apply (highlightParent_flag partNumber (isSelected partNumber s) li).
    + intros Hh. apply highlightParent_not_holding, Hh.
Qed.

Lemma toggleHighlight_list_items_witness :
  listInSync "1"
    (toggleHighlight "1"
       (drawScheme
          (Scheme_new (Canvas.mk 300 150 "")
                      [mkListItem "selected" [mkSpan "1"];
                       mkListItem "x" [mkSpan "2"]]
                      (Image.mk "sheme.png" 400 600)
                      [Label.mk "1" 158 165] None))).
Proof.
  refine (proj1 (toggleHighlight_list_items "1" _ _ _)).
  - reflexivity.
  - vm_compute. discriminate.
Defined.

(** ** The selection in the states of a widget *)

Lemma toggleHighlight_selectionExact
    (loaded : bool) (name : string) (s : Scheme) :
  consistent loaded s -> selectionExact s ->
  selectionExact (toggleHighlight name s).
Proof.
  intros [Ha _] Hx n. rewrite toggleHighlight_labelAreas.
  destruct (String.eqb_spec n name) as [->|Hne].
  2:{ rewrite toggleHighlight_filter_other by assumption. apply Hx. }
  rewrite toggleHighlight_selectedAreas.
  destruct (nonempty (findAllAreas name s)) eqn:Hf; [|apply Hx].
  assert (Hl : loaded = true).
  { destruct loaded; [reflexivity|].
    unfold findAllAreas in Hf. rewrite Ha in Hf. discriminate. }
  subst loaded.
  destruct (nonempty (filter (named name) (selectedAreas s))) eqn:Hr.
  - left. apply filter_named_not_named.
  - right. apply nonempty_false in Hr.
    rewrite filter_app, Hr, findAllAreas_named. simpl.
    unfold findAllAreas. rewrite Ha. reflexivity.
Qed.

Lemma reachable_selectionExact (loaded : bool) (s : Scheme) :
  reachable loaded s -> selectionExact s.
Proof.
  intros Hr.
  enough (H : consistent loaded s /\ selectionExact s) by apply H.
  induction Hr as [canvasEl listItems img labelsJSON params
                  | canvasEl listItems img labelsJSON params query
                  | s Hr IH | loaded s ev Hr IH Hev].
  - split; [apply reachable_consistent, reach_new|].
    destruct params; intros n; left; reflexivity.
  - split; [apply reachable_consistent, reach_list|].
    destruct params; intros n; left; reflexivity.
  - split; [apply reachable_consistent, reach_load, Hr|].
    destruct IH as [_ Hx]. simpl. rewrite drawScheme_eq. exact Hx.
  - destruct ev as [|e|e|this]; simpl; try discriminate.
    + unfold areaClicked.
      apply (areaClicked_loop_invariant
               (fun st => consistent loaded st /\ selectionExact st));
        [|assumption].
      intros name st [Hc Hx]. split.
      * apply toggleHighlight_consistent, Hc.
      * apply (toggleHighlight_selectionExact loaded); assumption.
    + destruct IH as [Hc Hx]. split; [apply areaHovered_consistent, Hc|].
      destruct (areaHovered_frame e s) as [_ [Hs [Hl [Hcf _]]]].
      unfold selectionExact, labelAreas. rewrite Hs, Hl, Hcf. exact Hx.
    + destruct IH as [Hc Hx]. split.
      * apply toggleHighlight_consistent, Hc.
      * apply (toggleHighlight_selectionExact loaded); assumption.
Qed.

(** In every state of a widget the selected areas of a name are none, or
    exactly the labels' areas of that name, each once and in label order:
    however often names are toggled, no area is selected twice, and a
    selected name has as many selected areas as it has labels. *)
Theorem selection_exact (loaded : bool) (s : Scheme) (name : string) :
  reachable loaded s ->
  (filter (named name) (selectedAreas s) = []
   \/ filter (named name) (selectedAreas s)
      = filter (named name) (labelAreas s))
  /\ (isSelected name s = true ->
      List.length (filter (named name) (selectedAreas s))
      = List.length
          (filter (fun label => String.eqb (Label.sLabel label) name)
                  (labels s))).
Proof.
  intros Hr. pose proof (reachable_selectionExact _ _ Hr name) as Hx.
  split; [exact Hx|]. unfold isSelected. intros Hsel.
  destruct Hx as [Hx|Hx]; [rewrite Hx in Hsel; discriminate|].
  rewrite Hx. unfold labelAreas.
  induction (labels s) as [|l ls IH]; simpl; [reflexivity|].
  unfold named at 1. simpl.
  destruct (String.eqb (Label.sLabel l) name); simpl; rewrite IH; reflexivity.
Qed.

Lemma selection_exact_witness :
  let s := dispatch (ItemClick (mkSpan "2"))
             (dispatch (ItemClick (mkSpan "1"))
                (dispatch ImageLoad
                   (Scheme_new (Canvas.mk 300 150 "") []
                               (Image.mk "sheme.png" 400 600)
                               [Label.mk "1" 158 165; Label.mk "2" 10 10;
                                Label.mk "1" 49 540] None))) in
  List.length (filter (named "1") (selectedAreas s)) = 2%nat.
Proof.
  intros s.
  refine (proj2 (selection_exact true s "1" _) _).
  - apply (reach_user true); [|reflexivity].
    apply (reach_user true); [|reflexivity].
    apply reach_load, reach_new.
  - vm_compute. reflexivity.
Defined.

(** ** Toggles that do something *)

Lemma isSelected_toggleHighlight (name : string) (s : Scheme) :
  nonempty (findAllAreas name s) = true ->
  isSelected name (toggleHighlight name s) = negb (isSelected name s).
Proof.
  intros Hne. unfold isSelected. rewrite toggleHighlight_selectedAreas, Hne.
  destruct (nonempty (filter (named name) (selectedAreas s))) eqn:Hr.
  - rewrite filter_named_not_named. reflexivity.
  - apply nonempty_false in Hr.
    rewrite filter_app, Hr, findAllAreas_named. simpl. exact Hne.
Qed.





(** ** A toggle whose selector is refused *)

Lemma itemsAfter_refused (partNumber : string)
    (func : string -> string -> string) (s : Scheme) :
  selectorReturns partNumber s = false ->
  itemsAfter partNumber func (listQuery s) (listEl s) = None.
Proof.
  intros H. rewrite <- (itemsAfter_returns partNumber func) in H.
  destruct (itemsAfter partNumber func (listQuery s) (listEl s));
    [discriminate | reflexivity].
Qed.

Lemma toggleHighlight_refused_state (partNumber : string) (s : Scheme) :
  selectorReturns partNumber s = false ->
  toggleHighlight partNumber s
  = set_selectedAreas (selectedAreas (toggleHighlight partNumber s)) s.
Proof.
  intros Hret. rewrite toggleHighlight_eq.
  destruct (nonempty (findAllAreas partNumber s)); [|destruct s; reflexivity].
  destruct (nonempty (filter (named partNumber) (selectedAreas s)));
    rewrite classesAndRedraw_state;
    cbn [listQuery listEl set_selectedAreas];
    rewrite (itemsAfter_refused _ _ s Hret); reflexivity.
Qed.

(** When [querySelectorAll] refuses the selector of a name that has areas,
    the toggle throws after it has changed the selection: the name is
    flipped in the selected areas and nothing else changes, no list class,
    no area and no drawing. A second toggle of the name meets the same
    refusal, so the list classes stay what they were. *)
Theorem toggleHighlight_selector_refused (partNumber : string) (s : Scheme) :
  findAllAreas partNumber s <> [] ->
  selectorReturns partNumber s = false ->
  threw (Call.toggleHighlight partNumber s) = true
  /\ isSelected partNumber (toggleHighlight partNumber s)
     = negb (isSelected partNumber s)
  /\ toggleHighlight partNumber s
     = set_selectedAreas (selectedAreas (toggleHighlight partNumber s)) s
  /\ selectorReturns partNumber (toggleHighlight partNumber s) = false
  /\ listEl (toggleHighlight partNumber (toggleHighlight partNumber s))
     = listEl s.
Proof.
  intros Hf Hret.
  assert (Hne : nonempty (findAllAreas partNumber s) = true)
    by (destruct (findAllAreas partNumber s); [congruence | reflexivity]).
  pose proof (toggleHighlight_refused_state partNumber s Hret) as Hst.
  assert (Hret' : selectorReturns partNumber (toggleHighlight partNumber s)
                  = false)
    by (rewrite Hst; exact Hret).
  split; [|split; [|split; [|split]]].
  - rewrite toggleHighlight_threw, Hne, Hret. reflexivity.
  - apply isSelected_toggleHighlight, Hne.
  - exact Hst.
  - exact Hret'.
  - rewrite (toggleHighlight_refused_state partNumber _ Hret').
    cbn [listEl set_selectedAreas]. rewrite Hst. reflexivity.
Qed.

Lemma toggleHighlight_selector_refused_witness :
  let quoted := "a" ++ String doubleQuote "b" in
  let s := dispatch ImageLoad
             (Scheme_new (Canvas.mk 300 150 "")
                         [mkListItem "" [mkSpan quoted]]
                         (Image.mk "sheme.png" 400 600)
                         [Label.mk quoted 158 165] None) in
  threw (Call.toggleHighlight quoted s) = true
  /\ isSelected quoted (toggleHighlight quoted s) = true.
Proof.
  intros quoted s.
  destruct (toggleHighlight_selector_refused quoted s) as [Ht [Hs _]].
  - vm_compute. discriminate.
  - reflexivity.
  - split; [exact Ht | exact Hs].
Defined.

(** ** Clicks on areas that lie on each other *)

Lemma clickedAreas_names_safe (e : MouseEvent) (s : Scheme)
    (names : list string) :
  map Area.name (clickedAreas e s) = names ->
  (forall name, In name names -> selectorSafe name = true) ->
  forall a, In a (clickedAreas e s) -> selectorSafe (Area.name a) = true.
Proof.
  intros Hn Hsafe a Ha. apply Hsafe. rewrite <- Hn. apply in_map, Ha.
Qed.

(** A click on a point that lies in exactly two areas, both with the same
    name, a name of selector characters, toggles the name twice: when the
    list items of the name agree with the selection, the selection and the
    [selected] classes are after the click what they were before it. *)
Theorem areaClicked_same_name_twice
    (loaded : bool) (e : MouseEvent) (s : Scheme) (name : string) :
  reachable loaded s ->
  selectorSafe name = true ->
  listInSync name s ->
  map Area.name (clickedAreas e s) = [name; name] ->
  areaClicked e s = toggleHighlight name (toggleHighlight name s)
  /\ (forall a, In a (selectedAreas (areaClicked e s))
                <-> In a (selectedAreas s))
  /\ selectedFlags (areaClicked e s) = selectedFlags s.
Proof.
  intros Hr Hsafe Hsync Hnames.
  pose proof (reachable_consistent _ _ Hr) as Hc.
  assert (E : areaClicked e s = toggleHighlight name (toggleHighlight name s)).
  { rewrite (areaClicked_toggleAll loaded); [|assumption|].
    - rewrite Hnames. reflexivity.
    - apply (clickedAreas_names_safe e s _ Hnames).
      intros n [<-|[<-|[]]]; assumption. }
  split; [exact E|]. rewrite E.
  apply (twice_restores_consistent loaded); assumption.
Qed.

Lemma areaClicked_same_name_twice_witness :
  let s := dispatch ImageLoad
             (Scheme_new (Canvas.mk 300 150 "") [mkListItem "" [mkSpan "1"]]
                         (Image.mk "sheme.png" 400 600)
                         [Label.mk "1" 158 165; Label.mk "1" 160 165] None) in
  selectedAreas (areaClicked (mkMouseEvent 190 195) s) = selectedAreas s.
Proof.
  intros s.
  destruct (areaClicked_same_name_twice true (mkMouseEvent 190 195) s "1")
    as [E _].
  - apply reach_load, reach_new.
  - reflexivity.
  - intros li [<-|[]] _. reflexivity.
  - reflexivity.
  - rewrite E. vm_compute. reflexivity.
Defined.

(** ** Before the image has loaded *)

Lemma reachable_unloaded (loaded : bool) (s : Scheme) :
  reachable loaded s ->
  loaded = false ->
  areas s = [] /\ selectedAreas s = [] /\ hoveredArea s = None /\ ctx s = [].
Proof.
  induction 1 as [canvasEl listItems img labelsJSON params
                 | canvasEl listItems img labelsJSON params query
                 | s Hr IH | loaded s ev Hr IH Hev]; intros Hl.
  - destruct params; simpl; auto.
  - destruct params; simpl; auto.
  - discriminate.
  - destruct (IH Hl) as [Ha [Hs [Hh Hc]]].
    assert (E : dispatch ev s = s).
    { destruct ev as [|e|e|this]; simpl; try discriminate.
      - apply areaClicked_loop_miss. intros a Hin.
        rewrite Ha in Hin. destruct Hin.
      - unfold areaHovered. rewrite Hh, Ha. reflexivity.
      - apply toggleHighlight_not_found. unfold findAllAreas.
        rewrite Ha. reflexivity. }
    rewrite E. auto.
Qed.

(** Until the image has loaded the widget has no areas, nothing selected,
    nothing hovered and nothing drawn, and every click on the canvas, every
    mousemove and every click on a list item leaves its state as it is. *)
Theorem inert_before_load (s : Scheme) (ev : Event) :
  reachable false s ->
  (areas s = [] /\ selectedAreas s = [] /\ hoveredArea s = None /\ ctx s = [])
  /\ (userEvent ev = true -> dispatch ev s = s).
Proof.
  intros Hr. pose proof (reachable_unloaded _ _ Hr eq_refl) as H.
  split; [exact H|]. destruct H as [Ha [Hs [Hh Hc]]]. intros Hev.
  destruct ev as [|e|e|this]; simpl; try discriminate.
  - apply areaClicked_loop_miss. intros a Hin. rewrite Ha in Hin.
    destruct Hin.
  - unfold areaHovered. rewrite Hh, Ha. reflexivity.
  - apply toggleHighlight_not_found. unfold findAllAreas.
    rewrite Ha. reflexivity.
Qed.

Lemma inert_before_load_witness :
  let s := Scheme_new (Canvas.mk 300 150 "") [mkListItem "" [mkSpan "1"]]
                      (Image.mk "sheme.png" 400 600)
                      [Label.mk "1" 158 165] None in
  dispatch (ItemClick (mkSpan "1"))
    (dispatch (CanvasClick (mkMouseEvent 188 195)) s) = s.
Proof.
  intros s.
  assert (Hr : reachable false s) by apply reach_new.
  rewrite (proj2 (inert_before_load s (CanvasClick (mkMouseEvent 188 195)) Hr)
             eq_refl).
  exact (proj2 (inert_before_load s (ItemClick (mkSpan "1")) Hr) eq_refl).
Defined.

(** ** The canvas *)

Lemma toggleHighlight_canvas (name : string) (s : Scheme) :
  canvas (toggleHighlight name s)
  = if nonempty (findAllAreas name s) && selectorReturns name s
    then Canvas.mk
           (reflectSize 300 (Image.width (schemeImg s) + padding (config s) * 2))
           (reflectSize 150 (Image.height (schemeImg s) + padding (config s) * 2))
           (Canvas.className (canvas s))
    else canvas s.
Proof. toggle_cases name s; reflexivity. Qed.

Lemma reflectSize_small (default v : Z) :
  0 <= v <= 2147483647 -> reflectSize default v = v.
Proof.
  intros H. unfold reflectSize. rewrite Z.mod_small by lia.
  destruct (Z.leb_spec v 2147483647); [reflexivity | lia].
Qed.

Lemma reflectSize_range (default v : Z) :
  0 <= default <= 2147483647 ->
  0 <= reflectSize default v <= 2147483647.
Proof.
  intros H. unfold reflectSize.
  pose proof (Z.mod_pos_bound v 4294967296 ltac:(lia)).
  destruct (Z.leb_spec (v mod 4294967296) 2147483647); lia.
Qed.

Lemma toggleHighlight_canvasFitsImage (name : string) (s : Scheme) :
  canvasFitsImage s -> canvasFitsImage (toggleHighlight name s).
Proof.
  unfold canvasFitsImage.
  destruct (toggleHighlight_frame name s) as [Hc [_ [Hi _]]].
  rewrite Hc, Hi, toggleHighlight_canvas.
  destruct (nonempty (findAllAreas name s) && selectorReturns name s);
    simpl; auto.
Qed.

Lemma areaHovered_canvas_size (e : MouseEvent) (s : Scheme) :
  Canvas.width (canvas (areaHovered e s)) = Canvas.width (canvas s)
  /\ Canvas.height (canvas (areaHovered e s)) = Canvas.height (canvas s)
  /\ schemeImg (areaHovered e s) = schemeImg s.
Proof.
  unfold areaHovered. destruct (hoveredArea s) as [hovered|].
  - destruct (coordsInArea (offsetX e) (offsetY e) hovered); simpl; auto.
  - destruct (areaHovered_scan e (areas s)); simpl; auto.
Qed.

Lemma reachable_canvasFitsImage (s : Scheme) :
  reachable true s -> canvasFitsImage s.
Proof.
  intros Hr. remember true as loaded eqn:Hl.
    induction Hr as [canvasEl listItems img labelsJSON params
                    | canvasEl listItems img labelsJSON params query
                    | s Hr IH | loaded s ev Hr IH Hev].
    + discriminate.
    + discriminate.
    + simpl. rewrite drawScheme_eq. unfold canvasFitsImage. simpl. auto.
    + specialize (IH Hl).
      destruct ev as [|e|e|this]; simpl; try discriminate.
      * unfold areaClicked.
        apply areaClicked_loop_invariant; [|assumption].
        intros name st. apply toggleHighlight_canvasFitsImage.
      * destruct (areaHovered_canvas_size e s) as [Hw [Hh Hi]].
        destruct (areaHovered_frame e s) as [_ [_ [_ [Hc _]]]].
        unfold canvasFitsImage. rewrite Hw, Hh, Hi, Hc. exact IH.
      * apply toggleHighlight_canvasFitsImage, IH.
Qed.

(** The size of the canvas is what its [width] and [height] attributes
    keep of an assignment: the number modulo 2^32, or the default 300 by 150
    when that is above 2147483647. A render pass assigns the size of the
    image plus the padding on both sides and keeps the class of the canvas;
    once the image has loaded the canvas has, in every state of the widget,
    what the attributes keep of that size, a width and a height from 0 to
    2147483647, and the very size of the image plus the padding when that
    lies in this range. *)
Theorem canvas_fits_image :
  (forall s : Scheme,
      canvasFitsImage (drawScheme s)
      /\ Canvas.className (canvas (drawScheme s)) = Canvas.className (canvas s))
  /\ (forall s : Scheme,
         reachable true s ->
         canvasFitsImage s
         /\ 0 <= Canvas.width (canvas s) <= 2147483647
         /\ 0 <= Canvas.height (canvas s) <= 2147483647)
  /\ (forall s : Scheme,
         reachable true s ->
         0 <= Image.width (schemeImg s) + padding (config s) * 2
           <= 2147483647 ->
         0 <= Image.height (schemeImg s) + padding (config s) * 2
           <= 2147483647 ->
         Canvas.width (canvas s)
         = Image.width (schemeImg s) + padding (config s) * 2
         /\ Canvas.height (canvas s)
            = Image.height (schemeImg s) + padding (config s) * 2).
Proof.
  split; [|split].
  - intros s. rewrite drawScheme_eq. unfold canvasFitsImage. simpl. auto.
  - intros s Hr. destruct (reachable_canvasFitsImage s Hr) as [Hw Hh].
    split; [split; assumption|]. rewrite Hw, Hh.
    split; apply reflectSize_range; lia.
  - intros s Hr Hwr Hhr. destruct (reachable_canvasFitsImage s Hr) as [Hw Hh].
    rewrite Hw, Hh, !reflectSize_small by assumption. auto.
Qed.

Lemma canvas_fits_image_witness :
  let s := dispatch (ItemClick (mkSpan "1"))
             (dispatch ImageLoad
                (Scheme_new (Canvas.mk 300 150 "") [mkListItem "" [mkSpan "1"]]
                            (Image.mk "sheme.png" 400 600)
                            [Label.mk "1" 158 165] None)) in
  Canvas.width (canvas s) = 460 /\ Canvas.height (canvas s) = 660.
Proof.
  intros s.
  refine (proj2 (proj2 canvas_fits_image) s _ _ _).
  - apply (reach_user true); [|reflexivity].
    apply reach_load, reach_new.
  - simpl. lia.
  - simpl. lia.
Defined.

(** [drawScheme] does not empty the area array, [redrawScheme] does: each
    render pass run on its own appends one area per label to the areas that
    are there, so after [n] of them the array has grown by [n] times the
    number of labels. *)
Theorem drawScheme_appends_areas (s : Scheme) :
  areas (drawScheme s) = (areas s ++ labelAreas s)%list
  /\ (forall n : nat,
         List.length (areas (Nat.iter n drawScheme s))
         = (List.length (areas s) + n * List.length (labels s))%nat)
  /\ (forall n : nat,
         List.length (areas (Nat.iter (S n) redrawScheme s))
         = List.length (labels s)).
Proof.
  split; [|split].
  - rewrite drawScheme_eq. reflexivity.
  - intros n. induction n as [|n IH]; simpl; [lia|].
    rewrite drawScheme_eq. simpl. rewrite length_app, IH.
    unfold labelAreas. rewrite length_map.
    assert (Hl : labels (Nat.iter n drawScheme s) = labels s).
    { clear IH. induction n as [|n IHn]; simpl; [reflexivity|].
      rewrite drawScheme_eq. simpl. exact IHn. }
    rewrite Hl. lia.
  - intros n. simpl. rewrite redrawScheme_eq. simpl.
    unfold labelAreas. rewrite length_map.
    induction n as [|n IHn]; simpl; [reflexivity|].
    rewrite redrawScheme_eq. simpl. exact IHn.
Qed.

(** ** The configuration *)

Lemma setConfig_fold_keeps {A : Type} (field : Config -> A) (key : string)
    (ps : list Param) :
  (forall c p, paramKey p <> key -> field (assignParam c p) = field c) ->
  (forall p, In p ps -> paramKey p <> key) ->
  forall c, field (fold_left assignParam ps c) = field c.
Proof.
  intros Hfield. induction ps as [|p ps IH]; intros Hps c; simpl;
    [reflexivity|].
  rewrite IH by (intros q Hq; apply Hps; simpl; auto).
  apply Hfield, Hps. simpl. auto.
Qed.

Ltac key_kept field key ps :=
  let Hps := fresh "Hps" in
  let Hk := fresh "Hk" in
  intros Hps; apply (setConfig_fold_keeps field key ps);
  [ intros ? [] Hk; simpl; try reflexivity; exfalso; apply Hk; reflexivity
  | exact Hps ].

(** [setConfig] changes the configuration only: a key that the params do
    not name keeps the value it had, the default at construction, and a key
    that is assigned last in the params has the assigned value. *)
Theorem setConfig_keeps_other_keys (ps : list Param) (s : Scheme) :
  setConfig ps s = set_config (config (setConfig ps s)) s
  /\ ((forall p, In p ps -> paramKey p <> "padding") ->
      padding (config (setConfig ps s)) = padding (config s))
  /\ ((forall p, In p ps -> paramKey p <> "bgColor") ->
      bgColor (config (setConfig ps s)) = bgColor (config s))
  /\ ((forall p, In p ps -> paramKey p <> "fontFamily") ->
      fontFamily (config (setConfig ps s)) = fontFamily (config s))
  /\ ((forall p, In p ps -> paramKey p <> "fontSize") ->
      fontSize (config (setConfig ps s)) = fontSize (config s))
  /\ ((forall p, In p ps -> paramKey p <> "fontColor") ->
      fontColor (config (setConfig ps s)) = fontColor (config s))
  /\ ((forall p, In p ps -> paramKey p <> "areaRadius") ->
      areaRadius (config (setConfig ps s)) = areaRadius (config s))
  /\ ((forall p, In p ps -> paramKey p <> "areaColor") ->
      areaColor (config (setConfig ps s)) = areaColor (config s))
  /\ ((forall p, In p ps -> paramKey p <> "scale") ->
      scale (config (setConfig ps s)) = scale (config s))
  /\ (forall v : Z,
         padding (config (setConfig (ps ++ [p_padding v]) s)) = v)
  /\ (forall v : string,
         bgColor (config (setConfig (ps ++ [p_bgColor v]) s)) = v)
  /\ (forall v : string,
         fontFamily (config (setConfig (ps ++ [p_fontFamily v]) s)) = v)
  /\ (forall v : string,
         fontSize (config (setConfig (ps ++ [p_fontSize v]) s)) = v)
  /\ (forall v : string,
         fontColor (config (setConfig (ps ++ [p_fontColor v]) s)) = v)
  /\ (forall v : Z,
         areaRadius (config (setConfig (ps ++ [p_areaRadius v]) s)) = v)
  /\ (forall v : string,
         areaColor (config (setConfig (ps ++ [p_areaColor v]) s)) = v)
  /\ (forall v : Z,
         scale (config (setConfig (ps ++ [p_scale v]) s)) = v).
Proof.
  split; [reflexivity|]. unfold setConfig. simpl.
  split; [key_kept padding "padding" ps|].
  split; [key_kept bgColor "bgColor" ps|].
  split; [key_kept fontFamily "fontFamily" ps|].
  split; [key_kept fontSize "fontSize" ps|].
  split; [key_kept fontColor "fontColor" ps|].
  split; [key_kept areaRadius "areaRadius" ps|].
  split; [key_kept areaColor "areaColor" ps|].
  split; [key_kept scale "scale" ps|].
  repeat split; intros v; rewrite fold_left_app; reflexivity.
Qed.

Lemma setConfig_keeps_other_keys_witness :
  areaRadius
    (config (Scheme_new (Canvas.mk 300 150 "") []
                        (Image.mk "sheme.png" 400 600) []
                        (Some [p_padding 5; p_bgColor "#000"])))
  = 10.
Proof.
  refine (proj1 (proj2 (proj2 (proj2 (proj2 (proj2 (proj2
            (setConfig_keeps_other_keys [p_padding 5; p_bgColor "#000"] _)))))))
            _).
  intros p [<-|[<-|[]]]; discriminate.
Defined.

(** ** More on hovering *)

Lemma areaHovered_scan_In (e : MouseEvent) (l : list Area.t) (area : Area.t) :
  areaHovered_scan e l = Some area -> In area l.
Proof.
  intros H. destruct (areaHovered_scan_first e l area H)
    as [before [after [-> _]]].
  apply in_or_app. right. simpl. auto.
Qed.

Lemma toggleHighlight_hoverShown (name : string) (s : Scheme) :
  hoverShown s -> hoverShown (toggleHighlight name s).
Proof.
  unfold hoverShown.
  destruct (toggleHighlight_frame name s) as [_ [_ [_ Hh]]].
  rewrite Hh, toggleHighlight_labelAreas, toggleHighlight_canvas.
  destruct (nonempty (findAllAreas name s) && selectorReturns name s);
    simpl; auto.
Qed.

Lemma areaHovered_hoverShown (loaded : bool) (e : MouseEvent) (s : Scheme) :
  consistent loaded s -> hoverShown s -> hoverShown (areaHovered e s).
Proof.
  intros [Ha _] Hs. unfold hoverShown, areaHovered.
  destruct (hoveredArea s) as [hovered|] eqn:Hh.
  - destruct (coordsInArea (offsetX e) (offsetY e) hovered); simpl.
    + exact Hs.
    + discriminate.
  - destruct (areaHovered_scan e (areas s)) as [area|] eqn:Hscan; simpl.
    + intros a [= <-]. split.
      * apply areaHovered_scan_In in Hscan. rewrite Ha in Hscan.
        destruct loaded; [exact Hscan | destruct Hscan].
      * apply hasClass_addClass. reflexivity.
    + rewrite Hh. discriminate.
Qed.

Lemma reachable_hoverShown (loaded : bool) (s : Scheme) :
  reachable loaded s -> hoverShown s.
Proof.
  induction 1 as [canvasEl listItems img labelsJSON params
                 | canvasEl listItems img labelsJSON params query
                 | s Hr IH | loaded s ev Hr IH Hev].
  - destruct params; intros a; simpl; discriminate.
  - destruct params; intros a; simpl; discriminate.
  - simpl. rewrite drawScheme_eq. exact IH.
  - destruct ev as [|e|e|this]; simpl; try discriminate.
    + unfold areaClicked. apply areaClicked_loop_invariant; [|assumption].
      intros name st. apply toggleHighlight_hoverShown.
    + apply (areaHovered_hoverShown loaded); [|assumption].
      apply reachable_consistent, Hr.
    + apply toggleHighlight_hoverShown, IH.
Qed.

(** A mousemove changes the hover state and the class of the canvas only:
    areas, selection, list, drawing log and canvas size stay, and so does
    every class of the canvas other than [pointer]. A move that neither
    enters nor leaves an area leaves the whole state as it is. *)
Theorem areaHovered_changes_hover_only (e : MouseEvent) (s : Scheme) :
  (areas (areaHovered e s) = areas s
   /\ selectedAreas (areaHovered e s) = selectedAreas s
   /\ listEl (areaHovered e s) = listEl s
   /\ ctx (areaHovered e s) = ctx s
   /\ Canvas.width (canvas (areaHovered e s)) = Canvas.width (canvas s)
   /\ Canvas.height (canvas (areaHovered e s)) = Canvas.height (canvas s))
  /\ (forall other : string,
         other <> "pointer" -> other <> EmptyString ->
         utility.hasClass (Canvas.className (canvas (areaHovered e s))) other
         = utility.hasClass (Canvas.className (canvas s)) other)
  /\ (hoveredArea (areaHovered e s) = hoveredArea s -> areaHovered e s = s).
Proof.
  split; [|split].
  - destruct (areaHovered_frame e s) as [Ha [Hs [_ [_ [Hl Hc]]]]].
    destruct (areaHovered_canvas_size e s) as [Hw [Hh _]]. auto 10.
  - intros other Hne Hother. unfold areaHovered.
    destruct (hoveredArea s) as [hovered|].
    + destruct (coordsInArea (offsetX e) (offsetY e) hovered); simpl;
        [reflexivity|].
      destruct (removeClass_parts (Canvas.className (canvas s)) "pointer"
                  other) as [_ H]; auto. discriminate.
    + destruct (areaHovered_scan e (areas s)); simpl; [|reflexivity].
      rewrite hasClass_addClass_other by reflexivity.
      destruct (String.eqb_spec other "pointer"); [contradiction|].
      apply orb_false_r.
  - unfold areaHovered. destruct (hoveredArea s) as [hovered|] eqn:Hh.
    + destruct (coordsInArea (offsetX e) (offsetY e) hovered); simpl;
        [reflexivity | discriminate].
    + destruct (areaHovered_scan e (areas s)); simpl;
        [discriminate | reflexivity].
Qed.

Lemma areaHovered_changes_hover_only_witness :
  let s := drawScheme
             (Scheme_new (Canvas.mk 300 150 "scheme") []
                         (Image.mk "sheme.png" 400 600)
                         [Label.mk "1" 158 165] None) in
  utility.hasClass
    (Canvas.className (canvas (areaHovered (mkMouseEvent 188 195) s)))
    "scheme" = true
  /\ areaHovered (mkMouseEvent 0 0) s = s.
Proof.
  intros s.
  destruct (areaHovered_changes_hover_only (mkMouseEvent 188 195) s)
    as [_ [H _]].
  destruct (areaHovered_changes_hover_only (mkMouseEvent 0 0) s)
    as [_ [_ H0]].
  split.
  - rewrite H; [reflexivity | discriminate | discriminate].
  - apply H0. reflexivity.
Defined.

(** In every state of a widget a hovered area is one of the labels' areas
    and the canvas bears [pointer] while an area is hovered; the mousemove
    that leaves the hovered area takes the class off again. *)
Theorem hover_shows_pointer :
  (forall (loaded : bool) (s : Scheme) (a : Area.t),
      reachable loaded s ->
      hoveredArea s = Some a ->
      In a (labelAreas s)
      /\ utility.hasClass (Canvas.className (canvas s)) "pointer" = true)
  /\ (forall (e : MouseEvent) (s : Scheme) (a : Area.t),
         hoveredArea s = Some a ->
         hoveredArea (areaHovered e s) = None ->
         utility.hasClass (Canvas.className (canvas (areaHovered e s)))
                          "pointer" = false).
Proof.
  split.
  - intros loaded s a Hr. apply (reachable_hoverShown _ _ Hr).
  - intros e s a Hh. unfold areaHovered. rewrite Hh.
    destruct (coordsInArea (offsetX e) (offsetY e) a); simpl.
    + rewrite Hh. discriminate.
    + intros _. apply hasClass_removeClass. discriminate.
Qed.

Lemma hover_shows_pointer_witness :
  let s := dispatch (CanvasMouseMove (mkMouseEvent 188 195))
             (dispatch ImageLoad
                (Scheme_new (Canvas.mk 300 150 "") []
                            (Image.mk "sheme.png" 400 600)
                            [Label.mk "1" 158 165] None)) in
  utility.hasClass (Canvas.className (canvas s)) "pointer" = true
  /\ utility.hasClass
       (Canvas.className (canvas (areaHovered (mkMouseEvent 0 0) s)))
       "pointer" = false.
Proof.
  intros s. split.
  - refine (proj2 (proj1 hover_shows_pointer true s
                     (Area.new "1" 188 195 10) _ _)).
    + apply (reach_user true); [|reflexivity]. apply reach_load, reach_new.
    + reflexivity.
  - refine (proj2 hover_shows_pointer (mkMouseEvent 0 0) s
              (Area.new "1" 188 195 10) _ _); reflexivity.
Defined.

(** ** What no event changes *)

Lemma dispatch_keeps_configuration (ev : Event) (s : Scheme) :
  config (dispatch ev s) = config s
  /\ labels (dispatch ev s) = labels s
  /\ schemeImg (dispatch ev s) = schemeImg s.
Proof.
  destruct ev as [|e|e|this]; simpl.
  - rewrite drawScheme_eq. auto.
  - unfold areaClicked.
    apply (areaClicked_loop_invariant
             (fun st => config st = config s /\ labels st = labels s
                        /\ schemeImg st = schemeImg s)); [|auto].
    intros name st [Hc [Hl Hi]].
    destruct (toggleHighlight_frame name st) as [Hc' [Hl' [Hi' _]]].
    rewrite Hc', Hl', Hi'. auto.
  - destruct (areaHovered_frame e s) as [_ [_ [Hl [Hc _]]]].
    destruct (areaHovered_canvas_size e s) as [_ [_ Hi]]. auto.
  - destruct (toggleHighlight_frame (data_part_number this) s)
      as [Hc [Hl [Hi _]]]. auto.
Qed.

Lemma run_keeps_config (evs : list Event) :
  forall s : Scheme,
    config (run evs s) = config s
    /\ labels (run evs s) = labels s
    /\ schemeImg (run evs s) = schemeImg s.
Proof.
  unfold run. induction evs as [|ev evs IH]; intros s; simpl; [auto|].
  destruct (IH (dispatch ev s)) as [Hc [Hl Hi]].
  destruct (dispatch_keeps_configuration ev s) as [Hc' [Hl' Hi']].
  rewrite Hc, Hl, Hi. auto.
Qed.

Lemma dispatch_keeps_hover (ev : Event) (s : Scheme) :
  (forall e, ev <> CanvasMouseMove e) ->
  hoveredArea (dispatch ev s) = hoveredArea s.
Proof.
  intros Hno. destruct ev as [|e|e|this]; simpl.
  - rewrite drawScheme_eq. reflexivity.
  - unfold areaClicked.
    apply (areaClicked_loop_invariant
             (fun st => hoveredArea st = hoveredArea s)); [|reflexivity].
    intros name st Hst.
    destruct (toggleHighlight_frame name st) as [_ [_ [_ Hh]]].
    congruence.
  - exfalso. apply (Hno e). reflexivity.
  - apply toggleHighlight_frame.
Qed.

Lemma run_keeps_hover (evs : list Event) :
  forall s : Scheme,
    (forall e, ~ In (CanvasMouseMove e) evs) ->
    hoveredArea (run evs s) = hoveredArea s.
Proof.
  unfold run. induction evs as [|ev evs IH]; intros s Hno; simpl;
    [reflexivity|].
  rewrite IH.
  - apply dispatch_keeps_hover. intros e ->. apply (Hno e). simpl. auto.
  - intros e He. apply (Hno e). simpl. auto.
Qed.

(** The configuration, the labels and the image are what the constructor
    made them, whatever events come, and with them the areas that a render
    pass registers; clicks, toggles and the image load never touch the hover
    state. *)
Theorem run_keeps_configuration (evs : list Event) (s : Scheme) :
  config (run evs s) = config s
  /\ labels (run evs s) = labels s
  /\ schemeImg (run evs s) = schemeImg s
  /\ labelAreas (run evs s) = labelAreas s
  /\ ((forall e, ~ In (CanvasMouseMove e) evs) ->
      hoveredArea (run evs s) = hoveredArea s).
Proof.
  destruct (run_keeps_config evs s) as [Hc [Hl Hi]].
  repeat split; try assumption.
  - unfold labelAreas. rewrite Hc, Hl. reflexivity.
  - apply run_keeps_hover.
Qed.

Lemma run_keeps_configuration_witness :
  let s := Scheme_new (Canvas.mk 300 150 "") [mkListItem "" [mkSpan "1"]]
                      (Image.mk "sheme.png" 400 600)
                      [Label.mk "1" 158 165] None in
  hoveredArea (run [ImageLoad; CanvasClick (mkMouseEvent 188 195)] s) = None.
Proof.
  intros s.
  refine (proj2 (proj2 (proj2 (proj2
            (run_keeps_configuration
               [ImageLoad; CanvasClick (mkMouseEvent 188 195)] s)))) _).
  intros e [H|[H|[]]]; discriminate.
Defined.

(** ** One click, one or two names *)

Lemma isSelected_toggleHighlight_other (name other : string) (s : Scheme) :
  other <> name ->
  isSelected other (toggleHighlight name s) = isSelected other s.
Proof.
  intros Hne. unfold isSelected.
  rewrite toggleHighlight_filter_other by assumption. reflexivity.
Qed.

Lemma clickedAreas_found (e : MouseEvent) (s : Scheme) (name : string) :
  In name (map Area.name (clickedAreas e s)) ->
  nonempty (findAllAreas name s) = true.
Proof.
  intros Hin. apply in_map_iff in Hin. destruct Hin as [a [<- Ha]].
  apply findAllAreas_In. unfold clickedAreas in Ha.
  apply filter_In in Ha. apply Ha.
Qed.

Lemma clickedAreas_radius (loaded : bool) (e : MouseEvent) (s : Scheme)
    (name : string) :
  consistent loaded s ->
  In name (map Area.name (clickedAreas e s)) ->
  0 <= areaRadius (config s).
Proof.
  intros [Ha _] Hin. apply in_map_iff in Hin. destruct Hin as [a [_ Hin]].
  unfold clickedAreas in Hin. apply filter_In in Hin. destruct Hin as [Hin Hhit].
  rewrite Ha in Hin. destruct loaded; [|destruct Hin].
  eapply labelAreas_hit_radius; eauto.
Qed.

(** In a state of a widget, a click on a point that lies in one area only
    does what a click on a list item of that name does, and flips whether
    the name is selected; a click on a point in two areas of different
    names, the first a name of selector characters, flips both names. No
    other name changes. *)
Theorem areaClicked_flips_hit_names
    (loaded : bool) (e : MouseEvent) (s : Scheme) :
  reachable loaded s ->
  (forall name : string,
      map Area.name (clickedAreas e s) = [name] ->
      areaClicked e s = itemClicked (mkSpan name) s
      /\ isSelected name (areaClicked e s) = negb (isSelected name s)
      /\ (forall other, other <> name ->
                        isSelected other (areaClicked e s)
                        = isSelected other s))
  /\ (forall name1 name2 : string,
         map Area.name (clickedAreas e s) = [name1; name2] ->
         name1 <> name2 ->
         selectorSafe name1 = true ->
         isSelected name1 (areaClicked e s) = negb (isSelected name1 s)
         /\ isSelected name2 (areaClicked e s) = negb (isSelected name2 s)
         /\ (forall other, other <> name1 -> other <> name2 ->
                           isSelected other (areaClicked e s)
                           = isSelected other s)).
Proof.
  intros Hr. pose proof (reachable_consistent _ _ Hr) as Hc.
  pose proof (areaClicked_general loaded e s Hc) as E.
  split.
  - intros name Hn. rewrite Hn in E. cbn [map toggleUntilThrow] in E.
    assert (Hf : nonempty (findAllAreas name s) = true)
      by (apply (clickedAreas_found e); rewrite Hn; simpl; auto).
    assert (E' : areaClicked e s = toggleHighlight name s)
      by (rewrite E; destruct (threw _); reflexivity).
    rewrite E'. split; [reflexivity|]. split.
    + apply isSelected_toggleHighlight, Hf.
    + intros other Hne. apply isSelected_toggleHighlight_other, Hne.
  - intros name1 name2 Hn Hne Hsafe. rewrite Hn in E.
    cbn [map toggleUntilThrow] in E.
    assert (Hf1 : nonempty (findAllAreas name1 s) = true)
      by (apply (clickedAreas_found e); rewrite Hn; simpl; auto).
    assert (Hf2 : nonempty (findAllAreas name2 s) = true)
      by (apply (clickedAreas_found e); rewrite Hn; simpl; auto).
    assert (Hrad : 0 <= areaRadius (config s))
      by (apply (clickedAreas_radius loaded e s name1);
          [assumption | rewrite Hn; simpl; auto]).
    rewrite (toggleHighlight_returns loaded) in E by assumption.
    cbn [threw] in E.
    assert (E' : areaClicked e s
                 = toggleHighlight name2 (toggleHighlight name1 s))
      by (rewrite E; destruct (threw _); reflexivity).
    assert (Hf2' : nonempty (findAllAreas name2 (toggleHighlight name1 s))
                   = true).
    { unfold findAllAreas. rewrite toggleHighlight_areas, Hf1,
        (selectorReturns_safe _ _ Hsafe).
      destruct Hc as [Ha _]. unfold findAllAreas in Hf2, Hf1.
      rewrite Ha in Hf2. destruct loaded; [exact Hf2|].
      rewrite Ha in Hf1. discriminate. }
    rewrite E'. split; [|split].
    + rewrite isSelected_toggleHighlight_other by assumption.
      apply isSelected_toggleHighlight, Hf1.
    + rewrite isSelected_toggleHighlight by assumption.
      rewrite isSelected_toggleHighlight_other by congruence. reflexivity.
    + intros other H1 H2.
      rewrite !isSelected_toggleHighlight_other by assumption. reflexivity.
Qed.

Lemma areaClicked_flips_hit_names_witness :
  let s := dispatch ImageLoad
             (Scheme_new (Canvas.mk 300 150 "") [mkListItem "" [mkSpan "1"]]
                         (Image.mk "sheme.png" 400 600)
                         [Label.mk "1" 158 165; Label.mk "2" 170 165] None) in
  areaClicked (mkMouseEvent 180 195) s = itemClicked (mkSpan "1") s
  /\ isSelected "2" (areaClicked (mkMouseEvent 195 195) s) = true.
Proof.
  intros s.
  assert (Hr : reachable true s) by (apply reach_load, reach_new).
  split.
  - refine (proj1 (proj1 (areaClicked_flips_hit_names true
                            (mkMouseEvent 180 195) s Hr) "1" _)).
    reflexivity.
  - refine (proj1 (proj2 (proj2 (areaClicked_flips_hit_names true
                            (mkMouseEvent 195 195) s Hr) "1" "2" _ _ _))).
    + reflexivity.
    + discriminate.
    + reflexivity.
Defined.

(** ** The drawing calls of a render pass *)

(** A render pass appends to the drawing log, in this order: the
    background over the whole canvas at the size its attributes hold after
    the assignment, the image at the padding, the text of every label in
    label order, and last a circle of line width 1 for the selected areas,
    up to the first one with a negative radius, where [ctx.arc] throws; with
    no negative radius these are all selected areas. A redraw puts a
    [clearRect] over the canvas at its old size in front. *)
Theorem drawScheme_render_pass (s : Scheme) :
  let w := reflectSize 300 (Image.width (schemeImg s) + padding (config s) * 2) in
  let h := reflectSize 150 (Image.height (schemeImg s) + padding (config s) * 2) in
  let pass :=
    ([FillRect (bgColor (config s)) 0 0 w h;
      DrawImage (Image.src (schemeImg s))
                (padding (config s)) (padding (config s))]
     ++ map (fun label =>
               FillText (fontSize (config s) ++ " " ++ fontFamily (config s))
                        (fontColor (config s)) (Label.sLabel label)
                        (Label.label_x1 label + padding (config s))
                        (Label.label_y1 label + padding (config s)))
            (labels s)
     ++ map (fun area =>
               StrokeArc (areaColor (config s)) 1
                         (Area.x area) (Area.y area) (Area.radius area))
            (strokedAreas (selectedAreas s)))%list in
  ctx (drawScheme s) = (ctx s ++ pass)%list
  /\ ctx (redrawScheme s)
     = (ctx s
        ++ ClearRect 0 0 (Canvas.width (canvas s)) (Canvas.height (canvas s))
        :: pass)%list
  /\ Canvas.width (canvas (drawScheme s)) = w
  /\ Canvas.height (canvas (drawScheme s)) = h
  /\ List.length pass
     = (2 + List.length (labels s)
        + List.length (strokedAreas (selectedAreas s)))%nat
  /\ threw (Call.drawScheme s) = negb (allStroked (selectedAreas s))
  /\ ((forall area, In area (selectedAreas s) -> 0 <= Area.radius area) ->
      strokedAreas (selectedAreas s) = selectedAreas s
      /\ threw (Call.drawScheme s) = false).
Proof.
  cbv zeta. rewrite drawScheme_eq, redrawScheme_eq, Call_drawScheme_eq. simpl.
  split; [reflexivity|]. split; [reflexivity|].
  split; [reflexivity|]. split; [reflexivity|]. split.
  - rewrite length_app, !length_map. reflexivity.
  - split.
    + destruct (allStroked (selectedAreas s)); reflexivity.
    + intros H. destruct (strokedAreas_all _ H) as [H1 H2].
      rewrite H2. auto.
Qed.

Lemma drawScheme_render_pass_witness :
  let s := toggleHighlight "1"
             (drawScheme
                (Scheme_new (Canvas.mk 300 150 "") [mkListItem "" [mkSpan "1"]]
                            (Image.mk "sheme.png" 400 600)
                            [Label.mk "1" 158 165] None)) in
  strokedAreas (selectedAreas s) = selectedAreas s
  /\ threw (Call.drawScheme s) = false.
Proof.
  intros s.
  refine (proj2 (proj2 (proj2 (proj2 (proj2 (proj2
            (drawScheme_render_pass s)))))) _).
  intros area [<-|[]]. simpl. lia.
Defined.
